(** * parquet-carpet, carpet-jdbc/scripts: DDL extractor and SQL generator

    A shallow embedding of [ddl-gen/extract-ddl.py] and
    [task-defn/generate_sql.py].

    Text is a list of characters ([list ascii]); a character stands for a
    code point below 256.  The files are the decoded text the scripts see
    (text mode has already turned every line ending into a line feed).
    The regular expressions of the extractor are values of a small
    regular-expression type, run by a backtracking matcher that lists the
    possible matches in the priority order of Python's [re]. *)

From Stdlib Require Import String Ascii DecimalString Bool Arith ZArith Lia List.
Import ListNotations.

(** ** Characters and text *)

Abbreviation text := (list ascii).

(** A text literal. *)
Definition T (s : string) : text := list_ascii_of_string s.
Arguments T s%_string : simpl never.

Definition nl : ascii := ascii_of_nat 10.
Definition dquote : ascii := ascii_of_nat 34.

Definition is_nl (c : ascii) : bool := Ascii.eqb c nl.

(** [str.isspace] on one character, which is also the class [\s] of [re]
    for [str] patterns: TAB..CR, FS..US, space, NEL and NBSP. *)
Definition is_space (c : ascii) : bool :=
  let n := nat_of_ascii c in
  ((9 <=? n) && (n <=? 13)) || ((28 <=? n) && (n <=? 32))
  || (n =? 133) || (n =? 160).

(** Lower-casing of one code point below 256: A-Z and the Latin-1 capitals. *)
Definition lower (c : ascii) : ascii :=
  let n := nat_of_ascii c in
  if ((65 <=? n) && (n <=? 90))
     || ((192 <=? n) && (n <=? 222) && negb (n =? 215))
  then ascii_of_nat (n + 32) else c.

(** Equality of a pattern character and a text character, under
    [re.IGNORECASE] when [ic] is set. *)
Definition ceq (ic : bool) (c d : ascii) : bool :=
  if ic then Ascii.eqb (lower c) (lower d) else Ascii.eqb c d.

Definition text_eqb (a b : text) : bool :=
  if list_eq_dec ascii_dec a b then true else false.

(** [s.startswith(p)] *)
Fixpoint startswith (s p : text) {struct p} : bool :=
  match p, s with
  | [], _ => true
  | c :: p', d :: s' => Ascii.eqb c d && startswith s' p'
  | _ :: _, [] => false
  end.

(** [p in s] *)
Fixpoint contains (s p : text) : bool :=
  startswith s p ||
  match s with
  | [] => false
  | _ :: s' => contains s' p
  end.

(** [s.find(sub, start)] for [0 <= start]: the lowest index at or after
    [start] where [sub] occurs, [-1] when there is none. *)
Fixpoint find_at (s sub : text) (pos : Z) : Z :=
  if startswith s sub then pos
  else match s with
       | [] => (-1)%Z
       | _ :: s' => find_at s' sub (pos + 1)%Z
       end.

Definition find (s sub : text) (start : Z) : Z :=
  if (Z.of_nat (length s) <? start)%Z then (-1)%Z
  else find_at (skipn (Z.to_nat start) s) sub start.

(** [s[:i]] and [s[i:]] for [0 <= i]. *)
Definition upto (s : text) (i : Z) : text := firstn (Z.to_nat i) s.
Definition from (s : text) (i : Z) : text := skipn (Z.to_nat i) s.

(** [s[i:j]] for [0 <= i]. *)
Definition slice (s : text) (i j : nat) : text := firstn (j - i) (skipn i s).

Fixpoint lstrip (s : text) : text :=
  match s with
  | c :: s' => if is_space c then lstrip s' else s
  | [] => []
  end.

Definition rstrip (s : text) : text := rev (lstrip (rev s)).

(** [s.strip()] *)
Definition strip (s : text) : text := rstrip (lstrip s).

(** The lines of a text file, as iterating the file yields them: each line
    keeps its line feed, the last one may lack it. *)
Fixpoint lines_from (cur : text) (s : text) : list text :=
  match s with
  | [] => match cur with [] => [] | _ => [rev cur] end
  | c :: s' => if is_nl c then rev (c :: cur) :: lines_from [] s'
               else lines_from (c :: cur) s'
  end.

Definition lines (s : text) : list text := lines_from [] s.

(** ['\n'.join(l)] *)
Fixpoint join_nl (l : list text) : text :=
  match l with
  | [] => []
  | [x] => x
  | x :: rest => x ++ nl :: join_nl rest
  end.

(** ** Regular expressions

    Only the constructs the two scripts use. *)

Inductive regex : Type :=
| Bol                        (* ^ under re.MULTILINE *)
| Chars (l : text)           (* a run of literal characters *)
| SpaceStar                  (* \s* *)
| DotStar                    (* .* without re.DOTALL *)
| Opt (r : regex)            (* (?:r)? *)
| Alt (r1 r2 : regex)        (* r1|r2 *)
| Seq (r1 r2 : regex).       (* r1 r2 *)

(** A position of the matcher: whether it is at the start of the string or
    just after a line feed, and the text still to read. *)
Definition mstate : Type := (bool * text)%type.

Fixpoint lit (ic : bool) (l : text) (st : mstate) : option mstate :=
  match l with
  | [] => Some st
  | c :: l' =>
      match st with
      | (_, d :: s) => if ceq ic c d then lit ic l' (is_nl d, s) else None
      | (_, []) => None
      end
  end.

(** A greedy starred character class: the longest run first. *)
Fixpoint star (p : ascii -> bool) (b : bool) (s : text) : list mstate :=
  match s with
  | c :: s' => if p c then star p (is_nl c) s' ++ [(b, s)] else [(b, s)]
  | [] => [(b, [])]
  end.

Definition not_nl (c : ascii) : bool := negb (is_nl c).

(** All the ways [r] matches at [st], in the order a backtracking matcher
    tries them; the head is the match [re] reports. *)
Fixpoint matches (ic : bool) (r : regex) (st : mstate) : list mstate :=
  match r with
  | Bol => if fst st then [st] else []
  | Chars l => match lit ic l st with Some st' => [st'] | None => [] end
  | SpaceStar => star is_space (fst st) (snd st)
  | DotStar => star not_nl (fst st) (snd st)
  | Opt r1 => matches ic r1 st ++ [st]
  | Alt r1 r2 => matches ic r1 st ++ matches ic r2 st
  | Seq r1 r2 => flat_map (matches ic r2) (matches ic r1 st)
  end.

(** [re.search]: the leftmost position with a match, as
    [(match.start(), match.end())]. *)
Fixpoint search_from (ic : bool) (r : regex) (b : bool) (s : text) (pos : nat)
  : option (nat * nat) :=
  match matches ic r (b, s) with
  | (_, rest) :: _ => Some (pos, pos + (length s - length rest))
  | [] => match s with
          | [] => None
          | c :: s' => search_from ic r (is_nl c) s' (S pos)
          end
  end.

Definition search (ic : bool) (r : regex) (s : text) : option (nat * nat) :=
  search_from ic r true s 0.

(** ** extract-ddl.py *)

Module Extract.

(** [read_table_list], on the text of table-list.txt. *)
Definition read_table_list (table_list : text) : list text :=
  map strip (filter (fun line => negb (text_eqb (strip line) []))
                    (lines table_list)).

Definition determine_source_file (table_name : text) : text :=
  if startswith table_name (T "kfa") || startswith table_name (T "kgl")
  then T "acct_db.sql"
  else T "core_db.sql".

Definition dashes : text := T "----------------------------".
Definition dash_line : text := T "-- ----------------------------".

(** The optional schema qualifier [(?:uat_suncbs_(?:acct|core)db\.)?]. *)
Definition schema_prefix : regex :=
  Opt (Seq (Chars (T "uat_suncbs_"))
           (Seq (Alt (Chars (T "acct")) (Chars (T "core")))
                (Chars (T "db.")))).

(** [table_header_pattern]; [re.escape(table_name)] is the literal run
    [Chars table_name]. *)
Definition table_header_pattern (table_name : text) : regex :=
  Seq Bol
 (Seq (Chars dash_line)
 (Seq SpaceStar
 (Seq (Chars (nl :: T "-- Table structure for "))
 (Seq schema_prefix
 (Seq (Chars table_name)
 (Seq SpaceStar
      (Chars (nl :: dash_line)))))))).

Definition next_table_pattern : regex :=
  Seq Bol
 (Seq (Chars dash_line)
 (Seq SpaceStar
      (Chars (nl :: T "-- Table structure for")))).

(** [DROP TABLE.*<table_name>] *)
Definition drop_pattern (table_name : text) : regex :=
  Seq (Chars (T "DROP TABLE")) (Seq DotStar (Chars table_name)).

(** Lines 61-77 of [extract_table_ddl]: the trimmed section of the table,
    [None] when the header is not found. *)
Definition ddl_section (content table_name : text) : option text :=
  match search true (table_header_pattern table_name) content with
  | None => None
  | Some (start_pos, match_end) =>
      let end_pos :=
        match search false next_table_pattern (skipn match_end content) with
        | Some (next_start, _) => match_end + next_start
        | None => length content
        end in
      Some (strip (slice content start_pos end_pos))
  end.

Definition drop_statement (schema_name table_name : text) : text :=
  T "DROP TABLE IF EXISTS " ++ dquote :: schema_name ++ dquote :: T "."
    ++ dquote :: table_name ++ dquote :: T ";" ++ [nl; nl].

(** Lines 79-87 of [extract_table_ddl]: the DROP statement is added when
    the section has none. *)
Definition add_drop (sql_file table_name ddl : text) : text :=
  match search true (drop_pattern table_name) ddl with
  | Some _ => ddl
  | None =>
      let schema_name :=
        if contains sql_file (T "acct_db") then T "uat_suncbs_acctdb"
        else T "uat_suncbs_coredb" in
      let header_end := find ddl dashes (find ddl dashes 0 + 1) in
      if (header_end =? -1)%Z then ddl
      else
        let header_end := (find ddl [nl] header_end + 1)%Z in
        upto ddl header_end ++ drop_statement schema_name table_name
          ++ from ddl header_end
  end.

(** [extract_table_ddl(sql_file, table_name)], where [content] is the text
    of the file at [sql_file]. *)
Definition extract_table_ddl (sql_file content table_name : text)
  : option text :=
  match ddl_section content table_name with
  | None => None
  | Some ddl => Some (add_drop sql_file table_name ddl)
  end.

(** *** The archive

    [zipfile.ZipFile.writestr(name, data)] given a name stamps the member
    with the local time of the call, and the archive stores the stamp in
    the member's header as an MS-DOS date and time.  A member is modelled
    by what the archive stores of it apart from the compressed form of the
    data, which is a function of the data. *)

(** [time.localtime(time.time())[:6]] *)
Record date_time : Type := DateTime {
  year : Z; month : Z; day : Z; hour : Z; minute : Z; second : Z
}.

Definition dos_date (d : date_time) : Z :=
  Z.lor (Z.lor (Z.shiftl (year d - 1980) 9) (Z.shiftl (month d) 5)) (day d).

Definition dos_time (d : date_time) : Z :=
  Z.lor (Z.lor (Z.shiftl (hour d) 11) (Z.shiftl (minute d) 5)) (second d / 2).

Record zip_member : Type := ZipMember {
  filename : text;
  stamp : Z * Z;          (* MS-DOS date and time *)
  data : text
}.

Definition writestr (now : date_time) (zinfo_or_arcname data : text)
  : zip_member :=
  ZipMember zinfo_or_arcname (dos_date now, dos_time now) data.

(** The files next to the script: the text of a path, [None] when the path
    does not exist. *)
Definition files : Type := text -> option text.

(** [script_dir / source_file] *)
Definition path_join (script_dir source_file : text) : text :=
  script_dir ++ T "/" ++ source_file.

(** The state of the loop of [create_zip_with_ddls]. *)
Record batch : Type := Batch {
  zipf : list zip_member;
  extracted_count : nat;
  missing_tables : list text
}.

(** One iteration of the loop; [now] is the clock at this iteration. *)
Definition process_table (fs : files) (script_dir : text) (now : date_time)
    (st : batch) (table_name : text) : batch :=
  let source_file := determine_source_file table_name in
  let source_path := path_join script_dir source_file in
  match fs source_path with
  | None =>
      Batch (zipf st) (extracted_count st) (missing_tables st ++ [table_name])
  | Some content =>
      match extract_table_ddl source_path content table_name with
      | Some (c :: d) =>
          let ddl := c :: d in
          let sql_filename := table_name ++ T ".sql" in
          Batch (zipf st ++ [writestr now sql_filename ddl])
                (S (extracted_count st)) (missing_tables st)
      | _ =>
          Batch (zipf st) (extracted_count st)
                (missing_tables st ++ [table_name])
      end
  end.

(** The loop, started in state [st]; [clock k] is the clock during the
    iteration number [k] of the whole run, and [k] counts the iterations
    already done. *)
Fixpoint process_tables (fs : files) (script_dir : text)
    (clock : nat -> date_time) (k : nat) (st : batch) (tables : list text)
  : batch :=
  match tables with
  | [] => st
  | table_name :: rest =>
      process_tables fs script_dir clock (S k)
        (process_table fs script_dir (clock k) st table_name) rest
  end.

Definition create_zip_with_ddls (fs : files) (script_dir : text)
    (clock : nat -> date_time) (tables : list text) : batch :=
  process_tables fs script_dir clock 0 (Batch [] 0 []) tables.

(** [main]: the exit status and, when table-list.txt exists, the run. *)
Definition main (table_list : option text) (fs : files) (script_dir : text)
    (clock : nat -> date_time) : Z * option batch :=
  match table_list with
  | None => (1%Z, None)
  | Some t =>
      (0%Z, Some (create_zip_with_ddls fs script_dir clock (read_table_list t)))
  end.

End Extract.

(** ** generate_sql.py *)

Module Generate.

Definition tab : ascii := ascii_of_nat 9.

(** The decimal digits of a count, as an f-string prints it. *)
Definition str_of_nat (n : nat) : text :=
  list_ascii_of_string (NilEmpty.string_of_uint (Nat.to_uint n)).

Definition get_schema_for_table (table_name : text) : text :=
  if startswith table_name (T "kfa") || startswith table_name (T "kgl")
  then T "sit_suncbs_acctdb"
  else T "sit_suncbs_coredb".

Definition delete_stmt (data_expr_id data_expr_grp_code : text) : text :=
  T "delete from kapp_data_expr_defn "
  ++ T "where lgl_pern_code = '6666' "
  ++ T "and data_expr_id = '" ++ data_expr_id ++ T "' "
  ++ T "and data_expr_grp_code = '" ++ data_expr_grp_code ++ T "' "
  ++ T "and file_tp = 'parquet';".

Definition select_clause (table_name : text) : text :=
  T "select a.* from " ++ table_name ++ T " a "
  ++ T "where a.lgl_pern_code = ''${lgl_pern_code}'' ".

Definition insert_stmt (data_expr_id data_expr_grp_code table_name : text)
  : text :=
  T "INSERT INTO kapp_data_expr_defn "
  ++ T "(lgl_pern_code,data_expr_id,data_expr_grp_code,data_expr_tab_nm,"
  ++ T "expr_sql_sentc,wthr_rgst_tmstp,wthr_concurrent_exec,concurrent_num,"
  ++ T "fld_seprtr,file_tp,file_gen_way,file_nm,file_comps_way,file_comps_type,"
  ++ T "wthr_gen_succ_file,wthr_file_upld,file_local_path,file_remote_path,"
  ++ T "wthr_vld,comt_info,sharding_hash_key) VALUES" ++ [nl]
  ++ tab :: T " ('6666','" ++ data_expr_id ++ T "','" ++ data_expr_grp_code
  ++ T "','" ++ table_name ++ T "','" ++ select_clause table_name ++ T "',"
  ++ T "'0','0',5,'@|@','parquet','0','" ++ table_name ++ T "','0',NULL,'1','1',"
  ++ T "'" ++ table_name ++ T "','" ++ table_name ++ T "','1',NULL,NULL);".

(** The accumulators of [generate_sql_statements]. *)
Record acc : Type := Acc {
  acct_statements : list text;
  core_statements : list text;
  core_db_count : nat;
  acct_db_count : nat
}.

(** The three lines a table adds to the list of its group. *)
Definition table_statements (data_expr_grp_code table_name : text)
  : list text :=
  let data_expr_id := table_name in
  [ delete_stmt data_expr_id data_expr_grp_code;
    insert_stmt data_expr_id data_expr_grp_code table_name;
    [] ].

(** One iteration of the loop over the tables. *)
Definition add_table (st : acc) (table_name : text) : acc :=
  let schema_name := get_schema_for_table table_name in
  if text_eqb schema_name (T "sit_suncbs_acctdb") then
    Acc (acct_statements st ++ table_statements (T "acct") table_name)
        (core_statements st) (core_db_count st) (S (acct_db_count st))
  else
    Acc (acct_statements st)
        (core_statements st ++ table_statements (T "core") table_name)
        (S (core_db_count st)) (acct_db_count st).

Definition acct_sql (st : acc) : text :=
  T "-- Generated SQL statements for Accounting DB data export definitions"
  ++ nl :: T "-- Based on table-list.txt"
  ++ nl :: T "-- Accounting DB (sit_suncbs_acctdb): "
  ++ str_of_nat (acct_db_count st) ++ T " tables" ++ [nl; nl]
  ++ join_nl (acct_statements st).

Definition core_sql (st : acc) : text :=
  T "-- Generated SQL statements for Core DB data export definitions"
  ++ nl :: T "-- Based on table-list.txt"
  ++ nl :: T "-- Core DB (sit_suncbs_coredb): "
  ++ str_of_nat (core_db_count st) ++ T " tables" ++ [nl; nl]
  ++ join_nl (core_statements st).

(** The loop of [generate_sql_statements] on the parsed table list. *)
Definition collect (tables : list text) : acc :=
  fold_left add_table tables (Acc [] [] 0 0).

(** [generate_sql_statements], on the text of table-list.txt: the texts
    written to acct.sql and core.sql. *)
Definition generate_sql_statements (table_list : text) : text * text :=
  let tables := map strip (filter (fun line => negb (text_eqb (strip line) []))
                                  (lines table_list)) in
  let st := collect tables in
  (acct_sql st, core_sql st).

(** The script: exit status 1 and no file when table-list.txt is absent. *)
Definition script (table_list : option text) : Z * option (text * text) :=
  match table_list with
  | None => (1%Z, None)
  | Some t => (0%Z, Some (generate_sql_statements t))
  end.

End Generate.

(** ** Vocabulary of the statements *)

Section Vocabulary.
Import Extract Generate.

(** Equality of texts is decidable. *)
Definition text_dec : forall a b : text, {a = b} + {a <> b} :=
  list_eq_dec ascii_dec.

(** Equality of two texts up to letter case. *)
Definition ci_equal (a b : text) : Prop :=
  Forall2 (fun c d => lower c = lower d) a b.

(** *** The classifier *)

(** The prefix test of both classifiers. *)
Definition has_acct_prefix (table_name : text) : Prop :=
  (exists r, table_name = T "kfa" ++ r) \/ (exists r, table_name = T "kgl" ++ r).

(** The prefix test of [get_schema_for_table]. *)
Definition is_acct (table_name : text) : bool :=
  startswith table_name (T "kfa") || startswith table_name (T "kgl").

(** The other names. *)
Definition is_core (table_name : text) : bool := negb (is_acct table_name).

(** *** The batch of the extractor *)

Section BatchVocabulary.

Variable fs : files.
Variable script_dir : text.

(** What an iteration extracts for a table: the DDL written to the archive,
    [None] for a table recorded as missing. *)
Definition outcome (table_name : text) : option text :=
  let source_path := path_join script_dir (determine_source_file table_name) in
  match fs source_path with
  | None => None
  | Some content =>
      match extract_table_ddl source_path content table_name with
      | Some (c :: d) => Some (c :: d)
      | _ => None
      end
  end.

(** Whether the iteration writes a member for the table. *)
Definition extracted (table_name : text) : bool :=
  match outcome table_name with Some _ => true | None => false end.

(** Whether the iteration records the table as missing. *)
Definition not_extracted (table_name : text) : bool :=
  negb (extracted table_name).

(** The members the loop appends for [tables] from iteration [k] on. *)
Fixpoint members (clock : nat -> date_time) (k : nat) (tables : list text)
  : list zip_member :=
  match tables with
  | [] => []
  | t :: rest =>
      match outcome t with
      | Some ddl => writestr (clock k) (t ++ T ".sql") ddl
                    :: members clock (S k) rest
      | None => members clock (S k) rest
      end
  end.

End BatchVocabulary.

(** Name and content of a member. *)
Definition payload (m : zip_member) : text * text := (filename m, data m).

(** Names and contents of the members for [tables], whatever the clock. *)
Definition entries (fs : files) (script_dir : text) (tables : list text)
  : list (text * text) :=
  flat_map (fun t => match outcome fs script_dir t with
                     | Some ddl => [(t ++ T ".sql", ddl)]
                     | None => []
                     end) tables.

(** *** Header blocks and the header pattern *)

(** The header block of a table as a dump writes it: [q] is the schema
    qualifier, possibly empty. *)
Definition header_block (q table_name : text) : text :=
  dash_line ++ nl :: T "-- Table structure for " ++ q ++ table_name
  ++ nl :: dash_line.

(** The qualifiers a dump writes before a table name. *)
Inductive qualifier : text -> Prop :=
| q_none : qualifier []
| q_acct : qualifier (T "uat_suncbs_acctdb.")
| q_core : qualifier (T "uat_suncbs_coredb.").

(** A plain name has no white space and no dot. *)
Definition plain_char (c : ascii) : bool :=
  negb (is_space c) && negb (Ascii.eqb c ".").

Definition plain_name (n : text) : bool := forallb plain_char n.

(** A text without dot. *)
Definition no_dot (l : text) : Prop := forall c, In c l -> c <> "."%char.

(** The part of the header pattern after the schema qualifier. *)
Definition name_tail (table_name : text) : regex :=
  Seq (Chars table_name) (Seq SpaceStar (Chars (nl :: dash_line))).

(** The qualifier inside [schema_prefix]. *)
Definition schema_qualifier : regex :=
  Seq (Chars (T "uat_suncbs_"))
      (Seq (Alt (Chars (T "acct")) (Chars (T "core"))) (Chars (T "db."))).

(** Whether the matcher is just after a line feed once it has read [p]. *)
Definition after (b : bool) (p : text) : bool :=
  fold_left (fun _ c => is_nl c) p b.

(** The text of a header block before the name, after its first four
    characters. *)
Definition before_name : text :=
  T "---------------------------" ++ nl :: T "-- Table structure for ".

(** The schema named in the DROP statement. *)
Definition schema_of (sql_file : text) : text :=
  if contains sql_file (T "acct_db") then T "uat_suncbs_acctdb"
  else T "uat_suncbs_coredb".

(** *** Sample inputs *)

(** The text of acct.sql for the table list kfab_bal, cust_info. *)
Definition expected_acct_sql : text :=
  T "-- Generated SQL statements for Accounting DB data export definitions"
  ++ nl :: T "-- Based on table-list.txt"
  ++ nl :: T "-- Accounting DB (sit_suncbs_acctdb): 1 tables"
  ++ nl :: nl ::
  T "delete from kapp_data_expr_defn where lgl_pern_code = '6666' and data_expr_id = 'kfab_bal' and data_expr_grp_code = 'acct' and file_tp = 'parquet';"
  ++ nl ::
  T "INSERT INTO kapp_data_expr_defn (lgl_pern_code,data_expr_id,data_expr_grp_code,data_expr_tab_nm,expr_sql_sentc,wthr_rgst_tmstp,wthr_concurrent_exec,concurrent_num,fld_seprtr,file_tp,file_gen_way,file_nm,file_comps_way,file_comps_type,wthr_gen_succ_file,wthr_file_upld,file_local_path,file_remote_path,wthr_vld,comt_info,sharding_hash_key) VALUES"
  ++ nl :: tab ::
  T " ('6666','kfab_bal','acct','kfab_bal','select a.* from kfab_bal a where a.lgl_pern_code = ''${lgl_pern_code}'' ','0','0',5,'@|@','parquet','0','kfab_bal','0',NULL,'1','1','kfab_bal','kfab_bal','1',NULL,NULL);"
  ++ [nl].

(** The text of core.sql for the same list. *)
Definition expected_core_sql : text :=
  T "-- Generated SQL statements for Core DB data export definitions"
  ++ nl :: T "-- Based on table-list.txt"
  ++ nl :: T "-- Core DB (sit_suncbs_coredb): 1 tables"
  ++ nl :: nl ::
  T "delete from kapp_data_expr_defn where lgl_pern_code = '6666' and data_expr_id = 'cust_info' and data_expr_grp_code = 'core' and file_tp = 'parquet';"
  ++ nl ::
  T "INSERT INTO kapp_data_expr_defn (lgl_pern_code,data_expr_id,data_expr_grp_code,data_expr_tab_nm,expr_sql_sentc,wthr_rgst_tmstp,wthr_concurrent_exec,concurrent_num,fld_seprtr,file_tp,file_gen_way,file_nm,file_comps_way,file_comps_type,wthr_gen_succ_file,wthr_file_upld,file_local_path,file_remote_path,wthr_vld,comt_info,sharding_hash_key) VALUES"
  ++ nl :: tab ::
  T " ('6666','cust_info','core','cust_info','select a.* from cust_info a where a.lgl_pern_code = ''${lgl_pern_code}'' ','0','0',5,'@|@','parquet','0','cust_info','0',NULL,'1','1','cust_info','cust_info','1',NULL,NULL);"
  ++ [nl].

(** Both dump files exist and are empty. *)
Definition empty_dumps : files := fun _ => Some [].

(** Two readings of the clock, a year apart. *)
Definition noon_2024 : date_time := DateTime 2024 3 1 12 0 0.
Definition noon_2025 : date_time := DateTime 2025 3 1 12 0 0.

(** A tab and a space. *)
Definition tab_sp : text := [Generate.tab; ascii_of_nat 32].

(** A dump with one table. *)
Definition orders_dump : text :=
  dash_line ++ nl :: T "-- Table structure for orders" ++ nl :: dash_line
  ++ nl :: T "CREATE TABLE orders (id int);" ++ [nl].

Definition orders_dumps : files := fun _ => Some orders_dump.

(** A section that has its DROP statement, in lower case. *)
Definition orders_with_drop : text :=
  header_block [] (T "orders")
  ++ nl :: T "drop table if exists ORDERS;"
  ++ nl :: T "CREATE TABLE orders (id int);" ++ [nl].

(** Three tables; the header of the third is written in lower case. *)
Definition lower_case_header (table_name : text) : text :=
  dash_line ++ nl :: T "-- table structure for " ++ table_name
  ++ nl :: dash_line.

Definition three_tables : text :=
  header_block [] (T "customers")
  ++ nl :: T "CREATE TABLE customers (id int);" ++ [nl; nl]
  ++ header_block [] (T "orders")
  ++ nl :: T "CREATE TABLE orders (id int);" ++ [nl; nl]
  ++ lower_case_header (T "items")
  ++ nl :: T "CREATE TABLE items (id int);" ++ [nl].

(** The section of customers, as it stands before the header of orders. *)
Definition customers_section : text :=
  header_block [] (T "customers")
  ++ nl :: T "CREATE TABLE customers (id int);" ++ [nl; nl].

End Vocabulary.

(** ** Vocabulary of the further properties *)

(** A name as [read_table_list] returns it: not empty, without white space
    at its ends, without line feed. *)
Definition clean_name (n : text) : Prop :=
  n <> [] /\ strip n = n /\ ~ In nl n.

(** A table list written one name per line, each line ended by a line
    feed. *)
Definition write_lines (names : list text) : text :=
  flat_map (fun n => n ++ [nl]) names.

(** The clock of a run that starts after [n] iterations. *)
Definition later (clock : nat -> Extract.date_time) (n : nat)
  : nat -> Extract.date_time :=
  fun k => clock (n + k).

(** The lines of a table in a file of the generator: the DELETE statement
    and the INSERT statement, each ended by a line feed. *)
Definition block (data_expr_grp_code table_name : text) : text :=
  Generate.delete_stmt table_name data_expr_grp_code
  ++ nl :: Generate.insert_stmt table_name data_expr_grp_code table_name
  ++ [nl].

(** The header comment of acct.sql for [n] tables. *)
Definition acct_header (n : nat) : text :=
  T "-- Generated SQL statements for Accounting DB data export definitions"
  ++ nl :: T "-- Based on table-list.txt"
  ++ nl :: T "-- Accounting DB (sit_suncbs_acctdb): "
  ++ Generate.str_of_nat n ++ T " tables" ++ [nl; nl].

(** The header comment of core.sql for [n] tables. *)
Definition core_header (n : nat) : text :=
  T "-- Generated SQL statements for Core DB data export definitions"
  ++ nl :: T "-- Based on table-list.txt"
  ++ nl :: T "-- Core DB (sit_suncbs_coredb): "
  ++ Generate.str_of_nat n ++ T " tables" ++ [nl; nl].

(** A schema qualifier as the header pattern reads it: nothing, or one of
    the two qualifiers in any letter case. *)
Definition qualifier_text (q : text) : Prop :=
  q = [] \/ ci_equal (T "uat_suncbs_acctdb.") q
  \/ ci_equal (T "uat_suncbs_coredb.") q.

(** The header of a table at the start of [s], followed by [rest]: the
    dash line, white space up to a line feed, the comment with the name
    of the table, in any letter case, white space up to a line feed, and
    the dash line. *)
Definition header_text (table_name s rest : text) : Prop :=
  exists ws1 h q n ws2,
    s = Extract.dash_line ++ ws1 ++ nl :: h ++ q ++ n ++ ws2
        ++ nl :: Extract.dash_line ++ rest
    /\ forallb is_space ws1 = true
    /\ ci_equal (T "-- Table structure for ") h
    /\ qualifier_text q
    /\ ci_equal table_name n
    /\ forallb is_space ws2 = true.

(** The start of a header as the search for the end of a section reads
    it at the start of [s], followed by [rest]: the dash line, white space
    up to a line feed and the start of the comment, in this letter
    case. *)
Definition next_header_text (s rest : text) : Prop :=
  exists ws,
    s = Extract.dash_line ++ ws ++ nl :: T "-- Table structure for" ++ rest
    /\ forallb is_space ws = true.

(** A text with a line where DROP TABLE is followed by the name of the
    table, both in any letter case. *)
Definition drop_line (table_name ddl : text) : Prop :=
  exists pre x mid n post,
    ddl = pre ++ x ++ mid ++ n ++ post
    /\ ci_equal (T "DROP TABLE") x
    /\ forallb not_nl mid = true
    /\ ci_equal table_name n.

(** A longer name that is one of the two schema qualifiers, in any letter
    case, followed by the shorter name, in any letter case. *)
Definition qualified_by (short long : text) : Prop :=
  exists q' n,
    long = q' ++ n
    /\ (ci_equal (T "uat_suncbs_acctdb.") q'
        \/ ci_equal (T "uat_suncbs_coredb.") q')
    /\ ci_equal short n.

(** ** Facts about text *)

Lemma startswith_app (p r : text) : startswith (p ++ r) p = true.
Proof.
  induction p as [|c p IH]; simpl; [reflexivity|].
  now rewrite Ascii.eqb_refl, IH.
Qed.

Lemma startswith_inv (p s : text) :
  startswith s p = true -> exists r, s = p ++ r.
Proof.
  revert s; induction p as [|c p IH]; intros s H.
  - now exists s.
  - destruct s as [|d s]; simpl in H; [discriminate|].
    apply andb_prop in H as [Hc Hs].
    apply Ascii.eqb_eq in Hc; subst d.
    destruct (IH _ Hs) as [r ->]. now exists r.
Qed.

Lemma startswith_iff (p s : text) :
  startswith s p = true <-> exists r, s = p ++ r.
Proof.
  split; [apply startswith_inv|].
  intros [r ->]; apply startswith_app.
Qed.

Lemma text_eqb_refl (a : text) : text_eqb a a = true.
Proof. unfold text_eqb; destruct (list_eq_dec ascii_dec a a); congruence. Qed.

Lemma text_eqb_eq (a b : text) : text_eqb a b = true <-> a = b.
Proof.
  unfold text_eqb; destruct (list_eq_dec ascii_dec a b); split; congruence.
Qed.

Lemma lstrip_blank (s : text) : forallb is_space s = true -> lstrip s = [].
Proof.
  induction s as [|c s IH]; simpl; [reflexivity|].
  intros H; apply andb_prop in H as [Hc Hs]; rewrite Hc; auto.
Qed.

Lemma strip_blank (s : text) : forallb is_space s = true -> strip s = [].
Proof. intros H; unfold strip, rstrip; now rewrite (lstrip_blank _ H). Qed.

Lemma forallb_rev (p : ascii -> bool) (s : text) :
  forallb p (rev s) = forallb p s.
Proof.
  induction s as [|c s IH]; simpl; [reflexivity|].
  rewrite forallb_app, IH; simpl. rewrite andb_true_r. apply andb_comm.
Qed.

Lemma lines_from_blank (s cur : text) :
  forallb is_space cur = true -> forallb is_space s = true ->
  Forall (fun l => forallb is_space l = true) (lines_from cur s).
Proof.
  revert cur; induction s as [|c s IH]; intros cur Hc Hs; simpl.
  - destruct cur; constructor; [|constructor].
    now rewrite forallb_rev.
  - simpl in Hs; apply andb_prop in Hs as [Hc1 Hs].
    destruct (is_nl c).
    + constructor.
      * change (forallb is_space (rev (c :: cur)) = true).
        rewrite forallb_rev; simpl; now rewrite Hc1.
      * now apply IH.
    + apply IH; [simpl; now rewrite Hc1|assumption].
Qed.

Lemma blank_lines_filtered (ls : list text) :
  Forall (fun l => forallb is_space l = true) ls ->
  filter (fun line => negb (text_eqb (strip line) [])) ls = [].
Proof.
  induction 1 as [|l ls Hl _ IH]; simpl; [reflexivity|].
  now rewrite (strip_blank _ Hl), IH.
Qed.

Lemma blank_table_list (t : text) :
  forallb is_space t = true ->
  map strip (filter (fun line => negb (text_eqb (strip line) [])) (lines t))
  = [].
Proof.
  intros H. rewrite blank_lines_filtered; [reflexivity|].
  now apply lines_from_blank.
Qed.

(** ** The classifier *)

Section Classifier.
Import Extract Generate.

Lemma acct_prefix_test (t : text) :
  startswith t (T "kfa") || startswith t (T "kgl") = true <-> has_acct_prefix t.
Proof.
  unfold has_acct_prefix. rewrite orb_true_iff, !startswith_iff. tauto.
Qed.

(** C5: both classifiers are total and two-valued; a name that starts with
    [kfa] or [kgl], in this exact letter case, goes to the accounting
    group (acct_db.sql, sit_suncbs_acctdb), every other name to the core
    group (core_db.sql, sit_suncbs_coredb). *)
Theorem classifier_two_groups (table_name : text) :
  (has_acct_prefix table_name
   /\ determine_source_file table_name = T "acct_db.sql"
   /\ get_schema_for_table table_name = T "sit_suncbs_acctdb")
  \/
  (~ has_acct_prefix table_name
   /\ determine_source_file table_name = T "core_db.sql"
   /\ get_schema_for_table table_name = T "sit_suncbs_coredb").
Proof.
  unfold determine_source_file, get_schema_for_table.
  destruct (startswith table_name (T "kfa") || startswith table_name (T "kgl"))
    eqn:E.
  - left; split; [now apply acct_prefix_test|split; reflexivity].
  - right; split; [|split; reflexivity].
    intros H; apply acct_prefix_test in H; congruence.
Qed.

(** The test is case-sensitive: an upper-case prefix is a core name. *)
Example classifier_upper_case :
  determine_source_file (T "KFA_bal") = T "core_db.sql"
  /\ get_schema_for_table (T "Kgl_acct") = T "sit_suncbs_coredb".
Proof. split; reflexivity. Qed.

End Classifier.

(** ** The generator *)

Section Generator.
Import Generate.

Lemma add_table_acct (st : acc) (t : text) :
  is_acct t = true ->
  add_table st t =
  Acc (acct_statements st ++ table_statements (T "acct") t)
      (core_statements st) (core_db_count st) (S (acct_db_count st)).
Proof.
  unfold is_acct, add_table, get_schema_for_table; intros ->; reflexivity.
Qed.

Lemma add_table_core (st : acc) (t : text) :
  is_acct t = false ->
  add_table st t =
  Acc (acct_statements st)
      (core_statements st ++ table_statements (T "core") t)
      (S (core_db_count st)) (acct_db_count st).
Proof.
  unfold is_acct, add_table, get_schema_for_table; intros ->; reflexivity.
Qed.

(** The loop keeps, per group, the statements of the group's tables in the
    order of the table list, and counts the group's tables. *)
Lemma fold_add_table (tables : list text) (st : acc) :
  let r := fold_left add_table tables st in
  acct_statements r
  = acct_statements st
    ++ flat_map (table_statements (T "acct")) (filter is_acct tables)
  /\ core_statements r
     = core_statements st
       ++ flat_map (table_statements (T "core")) (filter is_core tables)
  /\ acct_db_count r = acct_db_count st + length (filter is_acct tables)
  /\ core_db_count r = core_db_count st + length (filter is_core tables).
Proof.
  revert st; induction tables as [|t tables IH]; intros st; cbv zeta.
  - cbn [fold_left filter flat_map length].
    rewrite !app_nil_r, !Nat.add_0_r; auto.
  - cbn [fold_left filter].
    specialize (IH (add_table st t)); cbv zeta in IH.
    destruct IH as (Ha & Hc & Hna & Hnc).
    rewrite Ha, Hc, Hna, Hnc.
    replace (is_core t) with (negb (is_acct t)) by reflexivity.
    destruct (is_acct t) eqn:E; cbn [negb flat_map length].
    + rewrite (add_table_acct st t E).
      cbn [acct_statements core_statements acct_db_count core_db_count].
      rewrite <- !app_assoc, Nat.add_succ_r; auto.
    + rewrite (add_table_core st t E).
      cbn [acct_statements core_statements acct_db_count core_db_count].
      rewrite <- !app_assoc, Nat.add_succ_r; auto.
Qed.

Lemma collect_groups (tables : list text) :
  acct_statements (collect tables)
  = flat_map (table_statements (T "acct")) (filter is_acct tables)
  /\ core_statements (collect tables)
     = flat_map (table_statements (T "core")) (filter is_core tables)
  /\ acct_db_count (collect tables) = length (filter is_acct tables)
  /\ core_db_count (collect tables) = length (filter is_core tables).
Proof. exact (fold_add_table tables (Acc [] [] 0 0)). Qed.

(** C8: for the table list kfab_bal, cust_info the generator writes to
    acct.sql the header with count 1 and the DELETE/INSERT pair of kfab_bal
    with group code acct and nothing else, and to core.sql the header with
    count 1 and the pair of cust_info with group code core; for every
    table list the statements of a file are those of the tables of its
    group in the order of the list, and the count in the header is the
    number of those tables. *)
Theorem generator_kfab_bal_cust_info :
  generate_sql_statements (T "kfab_bal" ++ nl :: T "cust_info" ++ [nl])
  = (expected_acct_sql, expected_core_sql)
  /\ acct_statements (collect [T "kfab_bal"; T "cust_info"])
     = [delete_stmt (T "kfab_bal") (T "acct");
        insert_stmt (T "kfab_bal") (T "acct") (T "kfab_bal"); []]
  /\ core_statements (collect [T "kfab_bal"; T "cust_info"])
     = [delete_stmt (T "cust_info") (T "core");
        insert_stmt (T "cust_info") (T "core") (T "cust_info"); []]
  /\ acct_db_count (collect [T "kfab_bal"; T "cust_info"]) = 1
  /\ core_db_count (collect [T "kfab_bal"; T "cust_info"]) = 1
  /\ forall tables : list text,
       acct_statements (collect tables)
       = flat_map (table_statements (T "acct")) (filter is_acct tables)
       /\ core_statements (collect tables)
          = flat_map (table_statements (T "core")) (filter is_core tables)
       /\ acct_db_count (collect tables) = length (filter is_acct tables)
       /\ core_db_count (collect tables) = length (filter is_core tables).
Proof.
  split; [vm_compute; reflexivity|].
  repeat (split; [reflexivity|]).
  exact collect_groups.
Qed.

End Generator.

(** ** The batch of the extractor *)

Section Batch.
Import Extract.

Variable fs : files.
Variable script_dir : text.

Lemma process_table_outcome (now : date_time) (st : batch) (t : text) :
  process_table fs script_dir now st t =
  match outcome fs script_dir t with
  | Some ddl => Batch (zipf st ++ [writestr now (t ++ T ".sql") ddl])
                      (S (extracted_count st)) (missing_tables st)
  | None => Batch (zipf st) (extracted_count st) (missing_tables st ++ [t])
  end.
Proof.
  unfold process_table, outcome; cbv zeta.
  destruct (fs (path_join script_dir (determine_source_file t))) as [content|];
    [|reflexivity].
  destruct (extract_table_ddl _ content t) as [[|c d]|]; reflexivity.
Qed.

Lemma process_tables_batch (clock : nat -> date_time) (tables : list text) :
  forall (k : nat) (st : batch),
  process_tables fs script_dir clock k st tables =
  Batch (zipf st ++ members fs script_dir clock k tables)
        (extracted_count st
         + length (filter (extracted fs script_dir) tables))
        (missing_tables st ++ filter (not_extracted fs script_dir) tables).
Proof.
  induction tables as [|t tables IH]; intros k st.
  - cbn [process_tables members filter length].
    rewrite !app_nil_r, Nat.add_0_r. now destruct st.
  - cbn [process_tables members filter].
    rewrite IH, process_table_outcome.
    unfold not_extracted, extracted.
    destruct (outcome fs script_dir t) as [ddl|];
      cbn [zipf extracted_count missing_tables negb length].
    + now rewrite <- app_assoc, Nat.add_succ_r.
    + now rewrite <- app_assoc.
Qed.

Lemma create_zip_batch (clock : nat -> date_time) (tables : list text) :
  create_zip_with_ddls fs script_dir clock tables =
  Batch (members fs script_dir clock 0 tables)
        (length (filter (extracted fs script_dir) tables))
        (filter (not_extracted fs script_dir) tables).
Proof. unfold create_zip_with_ddls; now rewrite process_tables_batch. Qed.

Lemma members_payload (clock : nat -> date_time) (tables : list text) :
  forall k, map payload (members fs script_dir clock k tables)
            = entries fs script_dir tables.
Proof.
  induction tables as [|t tables IH]; intros k; [reflexivity|].
  unfold entries; cbn [members flat_map].
  destruct (outcome fs script_dir t) as [ddl|]; cbn [map app]; now rewrite IH.
Qed.

Lemma members_length (clock : nat -> date_time) (tables : list text) :
  forall k, length (members fs script_dir clock k tables)
            = length (filter (extracted fs script_dir) tables).
Proof.
  induction tables as [|t tables IH]; intros k; [reflexivity|].
  cbn [members filter]; unfold extracted at 1.
  destruct (outcome fs script_dir t); cbn [length]; now rewrite IH.
Qed.

Lemma members_names (clock : nat -> date_time) (tables : list text) :
  forall k, map filename (members fs script_dir clock k tables)
            = map (fun t => t ++ T ".sql")
                  (filter (extracted fs script_dir) tables).
Proof.
  induction tables as [|t tables IH]; intros k; [reflexivity|].
  cbn [members filter]; unfold extracted at 1.
  destruct (outcome fs script_dir t); cbn [map]; now rewrite IH.
Qed.

Lemma members_same_stamps (c1 c2 : nat -> date_time) (tables : list text) :
  (forall k, dos_date (c1 k) = dos_date (c2 k)
             /\ dos_time (c1 k) = dos_time (c2 k)) ->
  forall k, members fs script_dir c1 k tables
            = members fs script_dir c2 k tables.
Proof.
  intros H; induction tables as [|t tables IH]; intros k; [reflexivity|].
  cbn [members]. rewrite IH.
  destruct (outcome fs script_dir t); [|reflexivity].
  unfold writestr. destruct (H k) as [-> ->]. reflexivity.
Qed.

Lemma missing_source_outcome (t : text) :
  fs (path_join script_dir (determine_source_file t)) = None ->
  outcome fs script_dir t = None.
Proof. unfold outcome; cbv zeta; now intros ->. Qed.

Lemma filter_count_occ (f : text -> bool) (l : list text) (t : text) :
  f t = true -> count_occ text_dec (filter f l) t = count_occ text_dec l t.
Proof.
  intros Ht; induction l as [|x l IH]; [reflexivity|].
  cbn [filter count_occ].
  destruct (text_dec x t) as [->|Hne].
  - rewrite Ht; cbn [count_occ].
    destruct (text_dec t t); congruence.
  - destruct (f x); cbn [count_occ]; [|exact IH].
    destruct (text_dec x t); congruence.
Qed.

End Batch.

Section BatchClaims.
Import Extract.

(** C10: for every table list the number of extracted tables plus the
    number of missing tables is the number of requested tables; the archive
    holds one member per extracted table, named after the table with the
    suffix .sql, in the order of the list; the missing list holds the
    other tables; a table whose dump file does not exist is among the
    missing ones and the run goes on. *)
Theorem extractor_conservation (fs : files) (script_dir : text)
    (clock : nat -> date_time) (tables : list text) :
  let r := create_zip_with_ddls fs script_dir clock tables in
  extracted_count r + length (missing_tables r) = length tables
  /\ length (zipf r) = extracted_count r
  /\ map filename (zipf r)
     = map (fun t => t ++ T ".sql") (filter (extracted fs script_dir) tables)
  /\ missing_tables r = filter (not_extracted fs script_dir) tables
  /\ forall t, In t tables ->
       fs (path_join script_dir (determine_source_file t)) = None ->
       In t (missing_tables r).
Proof.
  cbv zeta. rewrite create_zip_batch.
  cbn [zipf extracted_count missing_tables].
  split; [|split; [|split; [|split]]].
  - pose proof (filter_length (extracted fs script_dir) tables) as H.
    change (fun x : text => negb (extracted fs script_dir x))
      with (not_extracted fs script_dir) in H.
    exact H.
  - apply members_length.
  - apply members_names.
  - reflexivity.
  - intros t Hin Hfs. apply filter_In. split; [assumption|].
    unfold not_extracted, extracted.
    now rewrite (missing_source_outcome fs script_dir t Hfs).
Qed.

Lemma members_not_missing (fs : files) (script_dir : text)
    (clock : nat -> date_time) (tables : list text) (t : text) :
  outcome fs script_dir t = None ->
  forall k m, In m (members fs script_dir clock k tables) ->
              filename m <> t ++ T ".sql".
Proof.
  intros Ht; induction tables as [|x tables IH]; intros k m Hin;
    [contradiction|].
  cbn [members] in Hin.
  destruct (outcome fs script_dir x) as [ddl|] eqn:Hx.
  - destruct Hin as [<-|Hin]; [|now apply (IH (S k))].
    cbn [writestr filename]. intros E.
    apply app_inv_tail in E. congruence.
  - now apply (IH (S k)).
Qed.

Lemma entries_app (fs : files) (script_dir : text) (l1 l2 : list text) :
  entries fs script_dir (l1 ++ l2)
  = entries fs script_dir l1 ++ entries fs script_dir l2.
Proof. unfold entries; apply flat_map_app. Qed.

Lemma header_absent_outcome (fs : files) (script_dir t content : text) :
  fs (path_join script_dir (determine_source_file t)) = Some content ->
  search true (table_header_pattern t) content = None ->
  extract_table_ddl (path_join script_dir (determine_source_file t)) content t
  = None
  /\ outcome fs script_dir t = None.
Proof.
  intros Hfs Hs.
  assert (E : extract_table_ddl
                (path_join script_dir (determine_source_file t)) content t
              = None).
  { unfold extract_table_ddl, ddl_section. now rewrite Hs. }
  split; [exact E|].
  unfold outcome; cbv zeta. now rewrite Hfs, E.
Qed.

(** C6, as amended: a requested table whose dump file has no header for it
    is not extracted ([None]), no member of the archive bears its name, it
    is in the missing list once for each time it is requested, and the
    other tables are treated as if it had not been requested. *)
Theorem missing_table_reported (fs : files) (script_dir : text)
    (clock : nat -> date_time) (tables : list text) (t content : text) :
  In t tables ->
  fs (path_join script_dir (determine_source_file t)) = Some content ->
  search true (table_header_pattern t) content = None ->
  let r := create_zip_with_ddls fs script_dir clock tables in
  extract_table_ddl (path_join script_dir (determine_source_file t)) content t
  = None
  /\ (forall m, In m (zipf r) -> filename m <> t ++ T ".sql")
  /\ count_occ text_dec (missing_tables r) t = count_occ text_dec tables t
  /\ forall l1 l2, tables = l1 ++ t :: l2 ->
       let r' := create_zip_with_ddls fs script_dir clock (l1 ++ l2) in
       map payload (zipf r) = map payload (zipf r')
       /\ extracted_count r = extracted_count r'
       /\ missing_tables r
          = missing_tables (create_zip_with_ddls fs script_dir clock l1)
            ++ t :: missing_tables
                      (create_zip_with_ddls fs script_dir clock l2).
Proof.
  intros Hin Hfs Hs; cbv zeta.
  destruct (header_absent_outcome fs script_dir t content Hfs Hs) as [E Ho].
  assert (Hne : not_extracted fs script_dir t = true)
    by (unfold not_extracted, extracted; now rewrite Ho).
  assert (Hex : extracted fs script_dir t = false)
    by (unfold extracted; now rewrite Ho).
  rewrite !create_zip_batch; cbn [zipf extracted_count missing_tables].
  split; [exact E|split; [|split]].
  - intros m. now apply members_not_missing.
  - now apply filter_count_occ.
  - intros l1 l2 ->.
    rewrite !create_zip_batch; cbn [zipf extracted_count missing_tables].
    rewrite !members_payload, !entries_app, !filter_app.
    assert (Het : entries fs script_dir (t :: l2) = entries fs script_dir l2)
      by (unfold entries; cbn [flat_map]; now rewrite Ho).
    rewrite Het. cbn [filter]. rewrite Hne, Hex. auto.
Qed.

Lemma missing_table_reported_witness :
  let r := create_zip_with_ddls empty_dumps (T "/scripts")
             (fun _ => noon_2024) [T "cust_info"; T "orders"] in
  extract_table_ddl (T "/scripts/core_db.sql") [] (T "orders") = None
  /\ (forall m, In m (zipf r) -> filename m <> T "orders.sql")
  /\ count_occ text_dec (missing_tables r) (T "orders") = 1.
Proof.
  destruct (missing_table_reported empty_dumps (T "/scripts")
              (fun _ => noon_2024) [T "cust_info"; T "orders"]
              (T "orders") [])
    as (H1 & H2 & H3 & _).
  - right; left; reflexivity.
  - reflexivity.
  - vm_compute; reflexivity.
  - cbv zeta. split; [exact H1|split; [exact H2|]].
    rewrite H3. vm_compute; reflexivity.
Defined.

(** C6 as stated fails when a table without a header is requested twice:
    it is in the missing list twice. *)
Lemma missing_table_listed_twice :
  let tables := [T "orders"; T "orders"] in
  let r := create_zip_with_ddls empty_dumps (T "/scripts")
             (fun _ => noon_2024) tables in
  In (T "orders") tables
  /\ empty_dumps (path_join (T "/scripts") (determine_source_file (T "orders")))
     = Some []
  /\ search true (table_header_pattern (T "orders")) [] = None
  /\ missing_tables r = [T "orders"; T "orders"]
  /\ count_occ text_dec (missing_tables r) (T "orders") = 2.
Proof.
  cbv zeta. split; [left; reflexivity|].
  split; [reflexivity|].
  repeat split; vm_compute; reflexivity.
Qed.

End BatchClaims.

Section Reruns.
Import Extract.

(** C7, as amended: two runs of the extractor on the same files write
    members with the same names and contents in the same order, count the
    same number of extracted tables and list the same missing tables; the
    archives are equal when, at each iteration, the two clocks have the
    same MS-DOS date and time; the two files of the generator are
    determined by the parsed table list alone. *)
Theorem rerun_same_outputs (table_list : text) (fs : files)
    (script_dir : text) (c1 c2 : nat -> date_time) :
  let tables := read_table_list table_list in
  let r1 := create_zip_with_ddls fs script_dir c1 tables in
  let r2 := create_zip_with_ddls fs script_dir c2 tables in
  map payload (zipf r1) = map payload (zipf r2)
  /\ extracted_count r1 = extracted_count r2
  /\ missing_tables r1 = missing_tables r2
  /\ ((forall k, dos_date (c1 k) = dos_date (c2 k)
                 /\ dos_time (c1 k) = dos_time (c2 k)) ->
      main (Some table_list) fs script_dir c1
      = main (Some table_list) fs script_dir c2)
  /\ Generate.generate_sql_statements table_list
     = (Generate.acct_sql (Generate.collect tables),
        Generate.core_sql (Generate.collect tables)).
Proof.
  cbv zeta. unfold main. rewrite !create_zip_batch.
  cbn [zipf extracted_count missing_tables].
  rewrite !members_payload.
  repeat split.
  intros H. now rewrite (members_same_stamps fs script_dir c1 c2 _ H 0).
Qed.

(** C7 as stated fails for the archive: the same files, read at two
    different dates, give members with different stamps. *)
Lemma archive_differs_between_runs :
  let table_list := T "orders" ++ [nl] in
  let run clock := main (Some table_list) orders_dumps (T "/scripts") clock in
  (exists m1 m2,
     run (fun _ => noon_2024) = (0%Z, Some (Batch [m1] 1 []))
     /\ run (fun _ => noon_2025) = (0%Z, Some (Batch [m2] 1 []))
     /\ payload m1 = payload m2
     /\ stamp m1 = (22625%Z, 24576%Z)
     /\ stamp m2 = (23137%Z, 24576%Z))
  /\ run (fun _ => noon_2024) <> run (fun _ => noon_2025).
Proof.
  cbv zeta. split.
  - eexists; eexists.
    split; [vm_compute; reflexivity|].
    split; [vm_compute; reflexivity|].
    repeat split.
  - intros E. vm_compute in E. discriminate E.
Qed.

(** C9: when table-list.txt holds nothing but white space the table list
    is empty, the extractor ends with status 0 and an archive without
    members, and the generator ends with status 0 and writes to acct.sql and
    core.sql their header with the count 0 and no statement. *)
Theorem blank_table_list_outputs (table_list : text) (fs : files)
    (script_dir : text) (clock : nat -> date_time) :
  forallb is_space table_list = true ->
  read_table_list table_list = []
  /\ main (Some table_list) fs script_dir clock = (0%Z, Some (Batch [] 0 []))
  /\ Generate.script (Some table_list)
     = (0%Z,
        Some
          (T "-- Generated SQL statements for Accounting DB data export definitions"
           ++ nl :: T "-- Based on table-list.txt"
           ++ nl :: T "-- Accounting DB (sit_suncbs_acctdb): 0 tables"
           ++ [nl; nl],
           T "-- Generated SQL statements for Core DB data export definitions"
           ++ nl :: T "-- Based on table-list.txt"
           ++ nl :: T "-- Core DB (sit_suncbs_coredb): 0 tables"
           ++ [nl; nl])).
Proof.
  intros H.
  assert (E : read_table_list table_list = [])
    by (unfold read_table_list; now apply blank_table_list).
  split; [exact E|split].
  - unfold main. now rewrite E.
  - unfold Generate.script, Generate.generate_sql_statements; cbv zeta.
    rewrite (blank_table_list _ H). vm_compute. reflexivity.
Qed.

Lemma blank_table_list_outputs_witness :
  read_table_list (T "  " ++ nl :: tab_sp ++ [nl; nl]) = []
  /\ main (Some (T "  " ++ nl :: tab_sp ++ [nl; nl])) orders_dumps
       (T "/scripts") (fun _ => noon_2024)
     = (0%Z, Some (Batch [] 0 [])).
Proof.
  destruct (blank_table_list_outputs (T "  " ++ nl :: tab_sp ++ [nl; nl])
              orders_dumps (T "/scripts") (fun _ => noon_2024))
    as (H1 & H2 & _).
  - vm_compute; reflexivity.
  - split; [exact H1|exact H2].
Defined.

End Reruns.

(** ** Facts about the matcher *)

Lemma ci_equal_refl (a : text) : ci_equal a a.
Proof. induction a; constructor; auto. Qed.

Lemma ci_equal_length (a b : text) : ci_equal a b -> length a = length b.
Proof. induction 1; simpl; congruence. Qed.

(** A literal run matches a text equal to it up to case. *)
Lemma lit_ci (p x : text) :
  ci_equal p x ->
  forall b rest, exists b', lit true p (b, x ++ rest) = Some (b', rest).
Proof.
  induction 1 as [|c d p x Hcd _ IH]; intros b rest.
  - now exists b.
  - cbn [lit app]. unfold ceq. rewrite Hcd, Ascii.eqb_refl. apply IH.
Qed.

(** What a literal run matched is equal to it up to case. *)
Lemma lit_ci_inv (p : text) :
  forall b s st, lit true p (b, s) = Some st ->
  exists x, s = x ++ snd st /\ ci_equal p x.
Proof.
  induction p as [|c p IH]; intros b s st H.
  - injection H as <-. exists []. split; [reflexivity|constructor].
  - destruct s as [|d s]; [discriminate|].
    cbn [lit] in H. destruct (ceq true c d) eqn:E; [|discriminate].
    destruct (IH _ _ _ H) as (x & -> & Hx).
    exists (d :: x). split; [reflexivity|].
    constructor; [|exact Hx].
    unfold ceq in E. now apply Ascii.eqb_eq in E.
Qed.

Lemma star_stay (p : ascii -> bool) (s : text) (b : bool) :
  In (b, s) (star p b s).
Proof.
  destruct s as [|c s]; cbn [star]; [now left|].
  destruct (p c); [apply in_or_app; right|]; now left.
Qed.

(** A starred class can stop after any run of characters of the class. *)
Lemma star_run (p : ascii -> bool) (run rest : text) :
  forallb p run = true ->
  forall b, exists b', In (b', rest) (star p b (run ++ rest)).
Proof.
  induction run as [|c run IH]; intros H b.
  - exists b. apply star_stay.
  - cbn [forallb] in H. apply andb_prop in H as [Hc Hrun].
    destruct (IH Hrun (is_nl c)) as [b' Hin].
    exists b'. cbn [app star]. rewrite Hc.
    apply in_or_app; now left.
Qed.

Lemma in_not_nil (st : mstate) (l : list mstate) : In st l -> l <> [].
Proof. destruct l; [contradiction|discriminate]. Qed.

Lemma matches_seq (ic : bool) (r1 r2 : regex) (st st1 st2 : mstate) :
  In st1 (matches ic r1 st) -> In st2 (matches ic r2 st1) ->
  In st2 (matches ic (Seq r1 r2) st).
Proof. intros H1 H2. cbn [matches]. apply in_flat_map. now exists st1. Qed.

(** [search] finds a match when the expression matches somewhere, for an
    expression that matches whatever precedes the position. *)
Lemma search_from_some (ic : bool) (r : regex) (s : text) :
  (forall b, matches ic r (b, s) <> []) ->
  forall pre b pos, search_from ic r b (pre ++ s) pos <> None.
Proof.
  intros H; induction pre as [|c pre IH]; intros b pos.
  - cbn [app]. specialize (H b).
    destruct s as [|d s]; cbn [search_from];
      destruct (matches ic r (b, _)) as [|[b1 rest] ms];
      congruence.
  - cbn [app search_from].
    match goal with
    | |- context [matches ic r ?st] =>
        destruct (matches ic r st) as [|[b1 rest] ms]
    end; [apply IH|discriminate].
Qed.

Section DropCheck.
Import Extract.

(** The DROP test succeeds on a text with a line where DROP TABLE, in any
    letter case, is followed by the table name, in any letter case. *)
Lemma drop_pattern_found (table_name pre x mid n post : text) :
  ci_equal (T "DROP TABLE") x -> ci_equal table_name n ->
  forallb not_nl mid = true ->
  search true (drop_pattern table_name) (pre ++ x ++ mid ++ n ++ post)
  <> None.
Proof.
  intros Hx Hn Hmid. unfold search. apply search_from_some.
  intros b.
  destruct (lit_ci _ _ Hx b (mid ++ n ++ post)) as [b1 H1].
  destruct (star_run not_nl mid (n ++ post) Hmid b1) as [b2 H2].
  destruct (lit_ci _ _ Hn b2 post) as [b3 H3].
  assert (Hin : In (b3, post)
                   (matches true (drop_pattern table_name)
                      (b, x ++ mid ++ n ++ post))).
  { unfold drop_pattern.
    apply matches_seq with (st1 := (b1, mid ++ n ++ post)).
    - cbn [matches]. rewrite H1. now left.
    - apply matches_seq with (st1 := (b2, n ++ post)).
      + exact H2.
      + cbn [matches]. rewrite H3. now left. }
  exact (in_not_nil _ _ Hin).
Qed.

(** C3: when the trimmed section of a table has a line on which DROP TABLE
    is followed by the table name, both in any letter case,
    [extract_table_ddl] returns the trimmed section as it is: no DROP
    statement is added. *)
Theorem existing_drop_kept (sql_file content table_name ddl : text)
    (pre x mid n post : text) :
  ddl_section content table_name = Some ddl ->
  ddl = pre ++ x ++ mid ++ n ++ post ->
  ci_equal (T "DROP TABLE") x ->
  ci_equal table_name n ->
  forallb not_nl mid = true ->
  extract_table_ddl sql_file content table_name = Some ddl.
Proof.
  intros Hsec -> Hx Hn Hmid.
  unfold extract_table_ddl. rewrite Hsec. f_equal.
  unfold add_drop.
  pose proof (drop_pattern_found table_name pre x mid n post Hx Hn Hmid) as H.
  destruct (search true (drop_pattern table_name) _); congruence.
Qed.

End DropCheck.

Section HeaderMatch.
Import Extract.

Lemma ceq_refl (ic : bool) (c : ascii) : ceq ic c c = true.
Proof. unfold ceq; destruct ic; apply Ascii.eqb_refl. Qed.

Lemma lit_self (ic : bool) (p : text) :
  forall b rest, lit ic p (b, p ++ rest) = Some (after b p, rest).
Proof.
  induction p as [|c p IH]; intros b rest; [reflexivity|].
  cbn [lit app]. rewrite ceq_refl. apply IH.
Qed.

Lemma matches_chars_self (ic : bool) (p : text) (b : bool) (rest : text) :
  matches ic (Chars p) (b, p ++ rest) = [(after b p, rest)].
Proof. cbn [matches]. now rewrite lit_self. Qed.

Lemma matches_chars_eq (ic : bool) (p : text) (st : mstate) :
  matches ic (Chars p) st
  = match lit ic p st with Some st' => [st'] | None => [] end.
Proof. reflexivity. Qed.

Lemma matches_seq_eq (ic : bool) (r1 r2 : regex) (st : mstate) :
  matches ic (Seq r1 r2) st = flat_map (matches ic r2) (matches ic r1 st).
Proof. reflexivity. Qed.

Lemma flat_map_one (f : mstate -> list mstate) (st : mstate) :
  flat_map f [st] = f st.
Proof. cbn [flat_map]. apply app_nil_r. Qed.

(** At the start of a header block the pattern reads the first two lines
    up to the qualifier in one way only. *)
Lemma header_pattern_start (table_name body : text) :
  matches true (table_header_pattern table_name)
    (true, dash_line ++ nl :: T "-- Table structure for " ++ body)
  = matches true (Seq schema_prefix (name_tail table_name)) (false, body).
Proof.
  unfold table_header_pattern.
  rewrite matches_seq_eq.
  change (matches true Bol (true, ?s)) with [(true, s)].
  rewrite flat_map_one, matches_seq_eq, matches_chars_self, flat_map_one.
  rewrite matches_seq_eq.
  change (matches true SpaceStar
            (after true dash_line, nl :: T "-- Table structure for " ++ body))
    with [(true, T "-- Table structure for " ++ body);
          (false, (nl :: T "-- Table structure for ") ++ body)].
  cbn [flat_map]. rewrite app_nil_r.
  rewrite !matches_seq_eq, matches_chars_self.
  change (matches true (Chars (nl :: T "-- Table structure for "))
            (true, T "-- Table structure for " ++ body))
    with (@nil mstate).
  cbn [flat_map app]. rewrite app_nil_r. reflexivity.
Qed.

Lemma ceq_nl_space (c : ascii) : ceq true nl c = true -> is_space c = true.
Proof.
  destruct c as [b0 b1 b2 b3 b4 b5 b6 b7].
  destruct b0, b1, b2, b3, b4, b5, b6, b7; vm_compute; congruence.
Qed.

Lemma lower_dot (c : ascii) : lower "." = lower c -> c = "."%char.
Proof.
  destruct c as [b0 b1 b2 b3 b4 b5 b6 b7].
  destruct b0, b1, b2, b3, b4, b5, b6, b7; vm_compute; congruence.
Qed.

(** A literal run shorter than [l] stops inside [l]. *)
Lemma lit_short (ic : bool) (s : text) :
  forall l R b st,
  length s < length l -> lit ic s (b, l ++ R) = Some st ->
  exists b' c l', st = (b', c :: l' ++ R) /\ In c l.
Proof.
  induction s as [|a s IH]; intros l R b st Hlen H.
  - destruct l as [|c l]; [cbn in Hlen; lia|].
    injection H as <-. exists b, c, l. split; [reflexivity|now left].
  - destruct l as [|d l]; [cbn in Hlen; lia|].
    cbn [lit app] in H. destruct (ceq ic a d); [|discriminate].
    cbn [length] in Hlen.
    destruct (IH l R (is_nl d) st ltac:(lia) H) as (b' & c & l' & -> & Hc).
    exists b', c, l'. split; [reflexivity|now right].
Qed.

(** After a name shorter than the name in the block, the pattern finds a
    character of the longer name where it wants the end of the line. *)
Lemma name_tail_fails (s l R : text) (b : bool) :
  length s < length l ->
  forallb (fun c => negb (is_space c)) l = true ->
  matches true (name_tail s) (b, l ++ R) = [].
Proof.
  intros Hlen Hl. unfold name_tail. rewrite matches_seq_eq.
  rewrite matches_chars_eq.
  destruct (lit true s (b, l ++ R)) as [st|] eqn:E; [|reflexivity].
  destruct (lit_short true s l R b st Hlen E) as (b' & c & l' & -> & Hc).
  rewrite forallb_forall in Hl. specialize (Hl c Hc).
  apply negb_true_iff in Hl.
  rewrite flat_map_one, matches_seq_eq.
  cbn [matches fst snd star]. rewrite Hl. rewrite flat_map_one.
  cbn [lit].
  destruct (ceq true nl c) eqn:En; [|reflexivity].
  apply ceq_nl_space in En. congruence.
Qed.

(** A literal run without line feed, matched before the end of the line,
    is matched inside the line. *)
Lemma lit_within (p : text) :
  forallb (fun c => negb (ceq true c nl)) p = true ->
  forall l R b st,
  lit true p (b, l ++ nl :: R) = Some st ->
  exists x l' b', l = x ++ l' /\ st = (b', l' ++ nl :: R) /\ ci_equal p x.
Proof.
  induction p as [|a p IH]; intros Hp l R b st H.
  - injection H as <-. exists [], l, b. repeat split. constructor.
  - cbn [forallb] in Hp. apply andb_prop in Hp as [Ha Hp].
    apply negb_true_iff in Ha.
    destruct l as [|d l]; cbn [lit app] in H.
    + rewrite Ha in H. discriminate.
    + destruct (ceq true a d) eqn:E; [|discriminate].
      destruct (IH Hp l R _ st H) as (x & l' & b' & -> & -> & Hx).
      exists (d :: x), l', b'. repeat split.
      constructor; [|exact Hx].
      unfold ceq in E. now apply Ascii.eqb_eq in E.
Qed.

Lemma db_dot_fails (l R : text) (b : bool) :
  no_dot l -> matches true (Chars (T "db.")) (b, l ++ nl :: R) = [].
Proof.
  intros Hl. cbn [matches].
  destruct (lit true (T "db.") (b, l ++ nl :: R)) as [st|] eqn:E;
    [|reflexivity].
  destruct (lit_within (T "db.") eq_refl l R b st E)
    as (x & l' & b' & -> & _ & Hx).
  inversion Hx as [|c1 d1 p1 x1 _ H1]; subst.
  inversion H1 as [|c2 d2 p2 x2 _ H2]; subst.
  inversion H2 as [|c3 d3 p3 x3 Hdot _]; subst.
  apply lower_dot in Hdot. subst d3.
  exfalso. apply (Hl "."%char); [|reflexivity].
  apply in_or_app; left. right; right; now left.
Qed.

Lemma then_db_dot_fails (p l R : text) (b : bool) :
  forallb (fun c => negb (ceq true c nl)) p = true ->
  no_dot l ->
  flat_map (matches true (Chars (T "db.")))
           (matches true (Chars p) (b, l ++ nl :: R)) = [].
Proof.
  intros Hp Hl. rewrite matches_chars_eq.
  destruct (lit true p (b, l ++ nl :: R)) as [st|] eqn:E; [|reflexivity].
  destruct (lit_within p Hp l R b st E) as (x & l' & b' & -> & -> & _).
  rewrite flat_map_one. apply db_dot_fails.
  intros c Hc. apply Hl. apply in_or_app; now right.
Qed.

(** A name without dot does not start with a schema qualifier. *)
Lemma schema_qualifier_fails (l R : text) (b : bool) :
  no_dot l -> matches true schema_qualifier (b, l ++ nl :: R) = [].
Proof.
  intros Hl. unfold schema_qualifier. rewrite matches_seq_eq.
  rewrite matches_chars_eq.
  destruct (lit true (T "uat_suncbs_") (b, l ++ nl :: R)) as [st|] eqn:E;
    [|reflexivity].
  destruct (lit_within (T "uat_suncbs_") eq_refl l R b st E)
    as (x & l' & b' & -> & -> & _).
  assert (Hl' : no_dot l')
    by (intros c Hc; apply Hl; apply in_or_app; now right).
  rewrite flat_map_one, matches_seq_eq.
  change (matches true (Alt (Chars (T "acct")) (Chars (T "core"))) ?st)
    with (matches true (Chars (T "acct")) st
          ++ matches true (Chars (T "core")) st).
  rewrite flat_map_app.
  rewrite (then_db_dot_fails (T "acct") l' R b' eq_refl Hl').
  rewrite (then_db_dot_fails (T "core") l' R b' eq_refl Hl').
  reflexivity.
Qed.

Lemma header_block_app (q table_name tail : text) :
  header_block q table_name ++ tail
  = dash_line ++ nl :: T "-- Table structure for "
    ++ q ++ table_name ++ nl :: dash_line ++ tail.
Proof.
  unfold header_block. rewrite <- app_assoc. cbn [app].
  now rewrite <- !app_assoc.
Qed.

Lemma schema_prefix_eq (st : mstate) :
  matches true schema_prefix st = matches true schema_qualifier st ++ [st].
Proof. reflexivity. Qed.

(** The qualifier of a block is read by the pattern. *)
Lemma schema_prefix_reads (q rest : text) :
  qualifier q ->
  In (false, rest) (matches true schema_prefix (false, q ++ rest)).
Proof.
  intros Hq. rewrite schema_prefix_eq. apply in_or_app.
  destruct Hq; [right; now left|left; now left|left; now left].
Qed.

(** The name of a block and the end of its header are read by the rest of
    the pattern for this name. *)
Lemma name_tail_self (table_name tail : text) (b : bool) :
  In (after true dash_line, tail)
     (matches true (name_tail table_name)
        (b, table_name ++ nl :: dash_line ++ tail)).
Proof.
  unfold name_tail.
  eapply matches_seq.
  - rewrite matches_chars_self. now left.
  - eapply matches_seq.
    + apply star_stay.
    + change (nl :: dash_line ++ tail) with ((nl :: dash_line) ++ tail).
      cbn [fst snd]. rewrite matches_chars_self. now left.
Qed.

Lemma plain_name_inv (l : text) :
  plain_name l = true ->
  forallb (fun c => negb (is_space c)) l = true /\ no_dot l.
Proof.
  unfold plain_name, plain_char, no_dot. rewrite !forallb_forall.
  intros H; split.
  - intros c Hc. specialize (H c Hc). now apply andb_prop in H as [H _].
  - intros c Hc ->. specialize (H _ Hc). now apply andb_prop in H as [_ H].
Qed.

Lemma proper_part_shorter (short long pre post : text) :
  long = pre ++ short ++ post -> short <> long -> length short < length long.
Proof.
  intros -> Hne. rewrite !length_app.
  destruct pre as [|c pre]; [|cbn [length]; lia].
  destruct post as [|d post]; [|cbn [length]; lia].
  exfalso; apply Hne. cbn [app]. now rewrite app_nil_r.
Qed.

(** When a plain name is a proper part (prefix, suffix or inner part)
    of another plain name, the header pattern of the shorter name does not
    match the header block of the longer name, with or without schema
    qualifier, whatever follows the block; the pattern of the longer name
    matches it. *)
Theorem shorter_name_no_cross_match (short long pre post q tail : text) :
  long = pre ++ short ++ post ->
  short <> long ->
  plain_name long = true ->
  qualifier q ->
  matches true (table_header_pattern short)
    (true, header_block q long ++ tail) = []
  /\ matches true (table_header_pattern long)
       (true, header_block q long ++ tail) <> [].
Proof.
  intros Hpart Hne Hplain Hq.
  pose proof (proper_part_shorter short long pre post Hpart Hne) as Hlen.
  destruct (plain_name_inv long Hplain) as [Hsp Hdot].
  rewrite header_block_app, !header_pattern_start. split.
  - rewrite matches_seq_eq, schema_prefix_eq, flat_map_app, flat_map_one.
    assert (H1 : flat_map (matches true (name_tail short))
                   (matches true schema_qualifier
                      (false, q ++ long ++ nl :: dash_line ++ tail)) = []).
    { destruct Hq.
      - cbn [app]. now rewrite schema_qualifier_fails.
      - change (matches true schema_qualifier
                  (false, T "uat_suncbs_acctdb." ++ ?r))
          with [(false, r)].
        rewrite flat_map_one. now apply name_tail_fails.
      - change (matches true schema_qualifier
                  (false, T "uat_suncbs_coredb." ++ ?r))
          with [(false, r)].
        rewrite flat_map_one. now apply name_tail_fails. }
    assert (H2 : matches true (name_tail short)
                   (false, q ++ long ++ nl :: dash_line ++ tail) = []).
    { rewrite app_assoc. apply name_tail_fails.
      - rewrite length_app; lia.
      - rewrite forallb_app, Hsp. now destruct Hq. }
    exact (f_equal2 (@app mstate) H1 H2).
  - apply in_not_nil with (st := (after true dash_line, tail)).
    rewrite matches_seq_eq. apply in_flat_map.
    exists (false, long ++ nl :: dash_line ++ tail). split.
    + now apply schema_prefix_reads.
    + apply name_tail_self.
Qed.

End HeaderMatch.

(** ** The extractor on sample dumps *)

Section Samples.
Import Extract.

Lemma shorter_name_no_cross_match_witness :
  matches true (table_header_pattern (T "cust"))
    (true, header_block (T "uat_suncbs_coredb.") (T "cust_info")
           ++ nl :: T "CREATE TABLE cust_info (id int);")
  = [].
Proof.
  apply (shorter_name_no_cross_match (T "cust") (T "cust_info")
           [] (T "_info") (T "uat_suncbs_coredb.")
           (nl :: T "CREATE TABLE cust_info (id int);")).
  - reflexivity.
  - intros E. apply (f_equal (@length ascii)) in E. vm_compute in E.
    discriminate E.
  - vm_compute; reflexivity.
  - exact q_core.
Defined.

(** The pattern takes the name literally: a dot in the name is a dot. *)
Example name_taken_literally :
  matches true (table_header_pattern (T "a.c"))
    (true, header_block [] (T "abc") ++ [nl]) = []
  /\ matches true (table_header_pattern (T "a.c"))
       (true, header_block [] (T "a.c") ++ [nl]) = [(false, [nl])].
Proof. split; vm_compute; reflexivity. Qed.

Lemma existing_drop_kept_witness :
  extract_table_ddl (T "/scripts/core_db.sql") orders_with_drop (T "orders")
  = Some (header_block [] (T "orders")
          ++ nl :: T "drop table if exists ORDERS;"
          ++ nl :: T "CREATE TABLE orders (id int);").
Proof.
  apply (existing_drop_kept (T "/scripts/core_db.sql") orders_with_drop
           (T "orders") _
           (header_block [] (T "orders") ++ [nl]) (T "drop table")
           (T " if exists ") (T "ORDERS")
           (T ";" ++ nl :: T "CREATE TABLE orders (id int);")).
  - vm_compute; reflexivity.
  - vm_compute; reflexivity.
  - repeat constructor.
  - repeat constructor.
  - vm_compute; reflexivity.
Defined.

(** C1 at a dump whose third header is in lower case: the header pattern
    finds the block of items, but the search for the end of the block of
    orders does not see that header, and the DDL of orders runs on to the
    end of the file, through the block of items. *)
Theorem next_header_search_case_sensitive :
  extract_table_ddl (T "/scripts/core_db.sql") three_tables (T "items")
  = Some (lower_case_header (T "items")
          ++ nl :: drop_statement (T "uat_suncbs_coredb") (T "items")
          ++ T "CREATE TABLE items (id int);")
  /\ extract_table_ddl (T "/scripts/core_db.sql") three_tables (T "orders")
     = Some (header_block [] (T "orders")
             ++ nl :: drop_statement (T "uat_suncbs_coredb") (T "orders")
             ++ T "CREATE TABLE orders (id int);" ++ [nl; nl]
             ++ lower_case_header (T "items")
             ++ nl :: T "CREATE TABLE items (id int);").
Proof. split; vm_compute; reflexivity. Qed.

(** With the third header in the usual case the DDL of orders ends before
    it. *)
Example next_header_found :
  extract_table_ddl (T "/scripts/core_db.sql")
    (header_block [] (T "customers")
     ++ nl :: T "CREATE TABLE customers (id int);" ++ [nl; nl]
     ++ header_block [] (T "orders")
     ++ nl :: T "CREATE TABLE orders (id int);" ++ [nl; nl]
     ++ header_block [] (T "items")
     ++ nl :: T "CREATE TABLE items (id int);" ++ [nl])
    (T "orders")
  = Some (header_block [] (T "orders")
          ++ nl :: drop_statement (T "uat_suncbs_coredb") (T "orders")
          ++ T "CREATE TABLE orders (id int);").
Proof. vm_compute; reflexivity. Qed.

(** C2 at a dump whose section for orders is the header alone: no line
    feed follows the header in the trimmed section, [find] answers -1, and
    the DROP statement is put before the header. *)
Theorem drop_before_bare_header :
  extract_table_ddl (T "/scripts/core_db.sql")
    (header_block [] (T "orders") ++ [nl]) (T "orders")
  = Some (drop_statement (T "uat_suncbs_coredb") (T "orders")
          ++ header_block [] (T "orders"))
  /\ find (header_block [] (T "orders")) [nl]
       (find (header_block [] (T "orders")) dashes
          (find (header_block [] (T "orders")) dashes 0 + 1))
     = (-1)%Z.
Proof. split; vm_compute; reflexivity. Qed.

(** With a statement after the header the DROP statement follows the
    header. *)
Example drop_after_header :
  extract_table_ddl (T "/scripts/core_db.sql")
    (header_block [] (T "orders")
     ++ nl :: T "CREATE TABLE orders (id int);" ++ [nl])
    (T "orders")
  = Some (header_block [] (T "orders")
          ++ nl :: drop_statement (T "uat_suncbs_coredb") (T "orders")
          ++ T "CREATE TABLE orders (id int);")
  /\ extract_table_ddl (T "/scripts/acct_db.sql")
       (header_block (T "uat_suncbs_acctdb.") (T "kfab_bal")
        ++ nl :: T "CREATE TABLE kfab_bal (id int);" ++ [nl])
       (T "kfab_bal")
     = Some (header_block (T "uat_suncbs_acctdb.") (T "kfab_bal")
             ++ nl :: drop_statement (T "uat_suncbs_acctdb") (T "kfab_bal")
             ++ T "CREATE TABLE kfab_bal (id int);").
Proof. split; vm_compute; reflexivity. Qed.

End Samples.

(** ** A found section is never empty *)

Section FoundSection.
Import Extract.

Lemma lit_inv (ic : bool) (p : text) :
  forall b s st, lit ic p (b, s) = Some st ->
  exists x, s = x ++ snd st
            /\ Forall2 (fun c d => ceq ic c d = true) p x.
Proof.
  induction p as [|c p IH]; intros b s st H.
  - injection H as <-. exists []. split; [reflexivity|constructor].
  - destruct s as [|d s]; [discriminate|].
    cbn [lit] in H. destruct (ceq ic c d) eqn:E; [|discriminate].
    destruct (IH _ _ _ H) as (x & -> & Hx).
    exists (d :: x). split; [reflexivity|]. now constructor.
Qed.

Lemma star_suffix (p : ascii -> bool) (s : text) :
  forall b st, In st (star p b s) -> exists x, s = x ++ snd st.
Proof.
  induction s as [|c s IH]; intros b st H.
  - destruct H as [<-|[]]. now exists [].
  - cbn [star] in H. destruct (p c).
    + apply in_app_or in H as [H|[<-|[]]].
      * destruct (IH _ _ H) as [x ->]. now exists (c :: x).
      * now exists [].
    + destruct H as [<-|[]]. now exists [].
Qed.

(** A match reads a prefix of the text. *)
Lemma matches_suffix (ic : bool) (r : regex) :
  forall st st', In st' (matches ic r st) -> exists x, snd st = x ++ snd st'.
Proof.
  induction r as [|l| | |r IH|r1 IH1 r2 IH2|r1 IH1 r2 IH2]; intros st st' H;
    cbn [matches] in H.
  - destruct (fst st); [|contradiction].
    destruct H as [<-|[]]. now exists [].
  - destruct st as [b s]. destruct (lit ic l (b, s)) as [st1|] eqn:E;
      [|contradiction].
    destruct H as [<-|[]].
    destruct (lit_inv ic l b s st1 E) as (x & Hx & _). now exists x.
  - now apply star_suffix in H.
  - now apply star_suffix in H.
  - apply in_app_or in H as [H|[<-|[]]]; [now apply IH|now exists []].
  - apply in_app_or in H as [H|H]; [now apply IH1|now apply IH2].
  - apply in_flat_map in H as (st1 & H1 & H2).
    destruct (IH1 _ _ H1) as [x ->].
    destruct (IH2 _ _ H2) as [y ->].
    exists (x ++ y). now rewrite app_assoc.
Qed.

(** What [search] reports is the first match at some position. *)
Lemma search_from_sound (ic : bool) (r : regex) (s : text) :
  forall b pos i j,
  search_from ic r b s pos = Some (i, j) ->
  exists pre suf b' st ms,
    s = pre ++ suf /\ i = pos + length pre
    /\ matches ic r (b', suf) = st :: ms
    /\ j = i + (length suf - length (snd st)).
Proof.
  induction s as [|c s IH]; intros b pos i j H; cbn [search_from] in H.
  - match type of H with
    | context [matches ic r ?st0] =>
        destruct (matches ic r st0) as [|[b1 rest] ms] eqn:E
    end; [discriminate|].
    injection H as <- <-.
    exists [], [], b, (b1, rest), ms.
    cbn [app length snd]. rewrite Nat.add_0_r. auto.
  - match type of H with
    | context [matches ic r ?st0] =>
        destruct (matches ic r st0) as [|[b1 rest] ms] eqn:E
    end.
    + destruct (IH _ _ _ _ H) as (pre & suf & b' & st & ms & -> & -> & Hm & ->).
      exists (c :: pre), suf, b', st, ms.
      cbn [app length]. rewrite Nat.add_succ_r. auto.
    + injection H as <- <-.
      exists [], (c :: s), b, (b1, rest), ms.
      cbn [app length snd]. rewrite Nat.add_0_r. auto.
Qed.

Lemma lower_dash (c : ascii) : ceq true "-" c = true -> c = "-"%char.
Proof.
  destruct c as [b0 b1 b2 b3 b4 b5 b6 b7].
  destruct b0, b1, b2, b3, b4, b5, b6, b7; vm_compute; congruence.
Qed.

(** What the header pattern matched starts with the dash line. *)
Lemma header_match_dashes (table_name : text) (st st' : mstate) :
  In st' (matches true (table_header_pattern table_name) st) ->
  exists x y, snd st = "-"%char :: x ++ y ++ snd st' /\ length x = 30.
Proof.
  unfold table_header_pattern. rewrite matches_seq_eq.
  intros H. apply in_flat_map in H as (st0 & H0 & H).
  cbn [matches] in H0. destruct (fst st); [|contradiction].
  destruct H0 as [<-|[]].
  rewrite matches_seq_eq in H. apply in_flat_map in H as (st1 & H1 & H).
  rewrite matches_chars_eq in H1. destruct st as [b s].
  destruct (lit true dash_line (b, s)) as [st2|] eqn:E; [|contradiction].
  destruct H1 as [<-|[]].
  destruct (lit_inv true dash_line b s st2 E) as (x & Hx & Hci).
  destruct (matches_suffix _ _ _ _ H) as [y Hy].
  cbn [snd] in *. rewrite Hy in Hx.
  inversion Hci as [|c d p x' Hd Hrest]; subst.
  apply lower_dash in Hd. subst d.
  exists x', y. split; [reflexivity|].
  apply Forall2_length in Hrest. now rewrite <- Hrest.
Qed.

Lemma lstrip_keeps_last (a : text) (c : ascii) :
  is_space c = false -> exists a', lstrip (a ++ [c]) = a' ++ [c].
Proof.
  intros Hc; induction a as [|d a IH]; cbn [app lstrip].
  - rewrite Hc. now exists [].
  - destruct (is_space d); [exact IH|]. now exists (d :: a).
Qed.

(** Trimming keeps a first character that is not white space. *)
Lemma strip_keeps_first (c : ascii) (z : text) :
  is_space c = false -> exists z', strip (c :: z) = c :: z'.
Proof.
  intros Hc. unfold strip, rstrip. cbn [lstrip]. rewrite Hc.
  cbn [rev]. destruct (lstrip_keeps_last (rev z) c Hc) as [a' ->].
  rewrite rev_app_distr. cbn [rev app]. now exists (rev a').
Qed.

(** The trimmed section of a found table starts with a dash. *)
Lemma ddl_section_starts (content table_name ddl : text) :
  ddl_section content table_name = Some ddl ->
  exists z, ddl = "-"%char :: z.
Proof.
  unfold ddl_section, search.
  destruct (search_from true (table_header_pattern table_name) true content 0)
    as [[i j]|] eqn:E; [|discriminate].
  destruct (search_from_sound _ _ _ _ _ _ _ E)
    as (pre & suf & b' & st & ms & -> & -> & Hm & ->).
  assert (Hin : In st (matches true (table_header_pattern table_name)
                         (b', suf))) by (rewrite Hm; now left).
  destruct (header_match_dashes _ _ _ Hin) as (x & y & Hsuf & Hx).
  cbn [snd] in Hsuf.
  intros H. injection H as <-.
  match goal with
  | |- context [slice _ _ ?e0] => set (e := e0)
  end.
  assert (Hs : length suf = 31 + length y + length (snd st))
    by (rewrite Hsuf at 1; cbn [length]; rewrite !length_app; lia).
  assert (He : 0 + length pre + 31 <= e).
  { subst e.
    match goal with
    | |- context [search_from false next_table_pattern true ?a 0] =>
        destruct (search_from false next_table_pattern true a 0)
          as [[n0 n1]|]
    end; [lia|rewrite length_app; lia]. }
  unfold slice. cbn [Nat.add] in *.
  rewrite skipn_app, skipn_all2, Nat.sub_diag by lia.
  cbn [skipn app]. rewrite Hsuf.
  destruct (e - length pre) as [|k] eqn:Ek; [lia|].
  cbn [firstn].
  destruct (strip_keeps_first "-" (firstn k (x ++ y ++ snd st)) eq_refl)
    as [z' Hz].
  now exists z'.
Qed.

Lemma add_drop_cons (sql_file table_name z : text) :
  exists c z', add_drop sql_file table_name ("-"%char :: z) = c :: z'.
Proof.
  unfold add_drop.
  destruct (search true (drop_pattern table_name) _); [now eexists; eexists|].
  cbv zeta.
  match goal with |- context [if ?t then _ else _] => destruct t end;
    [now eexists; eexists|].
  match goal with |- context [upto ?d ?h] => destruct (upto d h) as [|c u] end.
  - eexists; eexists. reflexivity.
  - now exists c; eexists.
Qed.

(** Whatever [extract_table_ddl] returns is not empty, so the test
    [if ddl:] of the loop sends to the missing list only the tables for
    which it returned [None]: a table is recorded as missing exactly when
    its dump file does not exist or holds no header for it. *)
Theorem missing_only_without_header (fs : files) (script_dir t : text) :
  extracted fs script_dir t = false
  <-> (fs (path_join script_dir (determine_source_file t)) = None
       \/ exists content,
            fs (path_join script_dir (determine_source_file t)) = Some content
            /\ search true (table_header_pattern t) content = None).
Proof.
  unfold extracted, outcome; cbv zeta.
  destruct (fs (path_join script_dir (determine_source_file t)))
    as [content|]; [|split; auto].
  unfold extract_table_ddl.
  destruct (ddl_section content t) as [ddl|] eqn:E.
  - destruct (ddl_section_starts _ _ _ E) as [z ->].
    destruct (add_drop_cons (path_join script_dir (determine_source_file t))
                t z) as (c & z' & ->).
    split; [discriminate|].
    intros [H|(content' & H & Hs)]; [discriminate|].
    injection H as <-.
    unfold ddl_section in E. rewrite Hs in E. discriminate.
  - split; [|reflexivity]. intros _. right. exists content.
    split; [reflexivity|].
    unfold ddl_section in E.
    destruct (search true (table_header_pattern t) content) as [[i j]|];
      [discriminate|reflexivity].
Qed.

End FoundSection.

(** ** Where the DROP statement goes *)

Section DropPlace.
Import Extract.

Lemma find_at_here (s sub : text) (pos : Z) :
  startswith s sub = true -> find_at s sub pos = pos.
Proof. intros H. destruct s; cbn [find_at]; now rewrite H. Qed.

(** [find_at] goes over a stretch where [sub] does not start. *)
Lemma find_at_skip (pre s sub : text) :
  (forall k, k < length pre -> startswith (skipn k pre ++ s) sub = false) ->
  forall pos,
  find_at (pre ++ s) sub pos = find_at s sub (pos + Z.of_nat (length pre)).
Proof.
  induction pre as [|c pre IH]; intros H pos.
  - cbn [app length]. now rewrite Z.add_0_r.
  - cbn [app find_at].
    pose proof (H 0 ltac:(cbn [length]; lia)) as H0. cbn [skipn app] in H0.
    rewrite H0, IH.
    + f_equal. cbn [length]. lia.
    + intros k Hk. apply (H (S k)). cbn [length]. lia.
Qed.

Lemma find_from (s sub : text) (start : Z) :
  (0 <= start <= Z.of_nat (length s))%Z ->
  find s sub start = find_at (skipn (Z.to_nat start) s) sub start.
Proof.
  intros H. unfold find.
  destruct (Z.ltb_spec (Z.of_nat (length s)) start); [lia|reflexivity].
Qed.

(** A run of dashes that starts before a line feed ends before it. *)
Lemma dashes_before_nl (p m R : text) :
  forallb (fun c => negb (is_nl c)) p = true ->
  startswith (m ++ nl :: R) p = true -> startswith m p = true.
Proof.
  revert m; induction p as [|c p IH]; intros m Hp H; [reflexivity|].
  cbn [forallb] in Hp. apply andb_prop in Hp as [Hc Hp].
  destruct m as [|d m]; cbn [app startswith] in *.
  - apply andb_prop in H as [H _]. apply Ascii.eqb_eq in H. subst c.
    discriminate Hc.
  - apply andb_prop in H as [-> H]. now apply IH.
Qed.

Lemma contains_skipn (m p : text) :
  contains m p = false -> forall k, startswith (skipn k m) p = false.
Proof.
  induction m as [|d m IH]; intros H k.
  - cbn [contains] in H. apply orb_false_elim in H as [H _].
    now destruct k.
  - cbn [contains] in H. apply orb_false_elim in H as [H0 H].
    destruct k as [|k]; [exact H0|]. cbn [skipn]. now apply IH.
Qed.

Lemma no_dashes_in_line (m R : text) :
  contains m dashes = false ->
  forall k, k < length m ->
  startswith (skipn k m ++ nl :: R) dashes = false.
Proof.
  intros H k _.
  destruct (startswith (skipn k m ++ nl :: R) dashes) eqn:E; [|reflexivity].
  apply dashes_before_nl in E; [|reflexivity].
  now rewrite (contains_skipn m dashes H k) in E.
Qed.

Lemma no_dashes_before_name (R : text) :
  forall k, k < length before_name ->
  startswith (skipn k before_name ++ R) dashes = false.
Proof.
  intros k Hk.
  do 51 (destruct k as [|k]; [vm_compute; reflexivity|]).
  vm_compute in Hk. lia.
Qed.

Lemma no_dashes_third_line (R : text) :
  forall k, k < length (nl :: T "-- ") ->
  startswith (skipn k (nl :: T "-- ") ++ dashes ++ R) dashes = false.
Proof.
  intros k Hk.
  do 4 (destruct k as [|k]; [vm_compute; reflexivity|]).
  vm_compute in Hk. lia.
Qed.

Lemma no_nl_in_dashes (R : text) :
  forall k, k < length dashes ->
  startswith (skipn k dashes ++ nl :: R) [nl] = false.
Proof.
  intros k Hk.
  do 28 (destruct k as [|k]; [vm_compute; reflexivity|]).
  vm_compute in Hk. lia.
Qed.

(** A section that is a header block and what follows it, cut before the
    closing run of dashes. *)
Lemma section_parts (q table_name body : text) :
  header_block q table_name ++ nl :: body
  = T "-- -" ++ before_name ++ (q ++ table_name) ++ (nl :: T "-- ")
    ++ dashes ++ nl :: body.
Proof.
  unfold header_block, before_name.
  rewrite <- !app_assoc. cbn [app]. rewrite <- !app_assoc. reflexivity.
Qed.

Lemma firstn_exact (a b : text) (n : nat) :
  n = length a -> firstn n (a ++ b) = a.
Proof.
  intros ->. rewrite firstn_app, Nat.sub_diag, firstn_all.
  cbn [firstn]. apply app_nil_r.
Qed.

Lemma skipn_exact (a b : text) (n : nat) :
  n = length a -> skipn n (a ++ b) = b.
Proof.
  intros ->. rewrite skipn_app, Nat.sub_diag, skipn_all. reflexivity.
Qed.

Lemma header_block_length (q table_name : text) :
  length (header_block q table_name) = 87 + length (q ++ table_name).
Proof.
  unfold header_block. rewrite !length_app. cbn [length].
  rewrite !length_app.
  change (length dash_line) with 31.
  change (length (T "-- Table structure for ")) with 23.
  change (length (nl :: dash_line)) with 32.
  lia.
Qed.

(** The second run of dashes of a section is the closing line of its
    header, when the name has no such run. *)
Lemma header_end_pos (q table_name body : text) :
  contains (q ++ table_name) dashes = false ->
  let ddl := header_block q table_name ++ nl :: body in
  find ddl dashes (find ddl dashes 0 + 1)
  = (59 + Z.of_nat (length (q ++ table_name)))%Z.
Proof.
  intros Hm ddl.
  assert (Hlen : length ddl = 88 + length (q ++ table_name) + length body).
  { subst ddl. rewrite length_app, header_block_length. cbn [length]. lia. }
  assert (H0 : find ddl dashes 0 = 3%Z).
  { rewrite find_from by lia. subst ddl. rewrite section_parts.
    vm_compute. reflexivity. }
  rewrite H0. change (3 + 1)%Z with 4%Z.
  rewrite find_from by lia.
  subst ddl. rewrite section_parts.
  change (skipn (Z.to_nat 4) (T "-- -" ++ ?X)) with X.
  rewrite find_at_skip by apply no_dashes_before_name.
  rewrite find_at_skip by (apply no_dashes_in_line; exact Hm).
  rewrite find_at_skip by apply no_dashes_third_line.
  rewrite find_at_here by apply startswith_app.
  change (length before_name) with 51.
  change (length (nl :: T "-- ")) with 4.
  lia.
Qed.

(** The line feed after the closing line of the header. *)
Lemma header_line_end (q table_name body : text) :
  let ddl := header_block q table_name ++ nl :: body in
  find ddl [nl] (59 + Z.of_nat (length (q ++ table_name)))
  = Z.of_nat (length (header_block q table_name)).
Proof.
  intros ddl.
  assert (Hlen : length ddl = 88 + length (q ++ table_name) + length body).
  { subst ddl. rewrite length_app, header_block_length. cbn [length]. lia. }
  rewrite find_from by lia.
  rewrite header_block_length.
  subst ddl. rewrite section_parts.
  rewrite !app_assoc. rewrite <- (app_assoc _ dashes).
  rewrite skipn_exact.
  - rewrite find_at_skip by apply no_nl_in_dashes.
    rewrite find_at_here by reflexivity.
    change (length dashes) with 28. lia.
  - rewrite !length_app.
    change (length (T "-- -")) with 4.
    change (length before_name) with 51.
    change (length (nl :: T "-- ")) with 4.
    lia.
Qed.

(** When the trimmed section is a header block, a line feed and more
    text, the name has no run of 28 dashes and the DROP test fails, the
    DROP statement and an empty line are put right after the header
    block. *)
Theorem drop_added_after_header (sql_file content q table_name body : text) :
  ddl_section content table_name
  = Some (header_block q table_name ++ nl :: body) ->
  contains (q ++ table_name) dashes = false ->
  search true (drop_pattern table_name)
    (header_block q table_name ++ nl :: body) = None ->
  extract_table_ddl sql_file content table_name
  = Some (header_block q table_name
          ++ nl :: drop_statement (schema_of sql_file) table_name ++ body).
Proof.
  intros Hsec Hm Hdrop.
  unfold extract_table_ddl. rewrite Hsec. f_equal.
  unfold add_drop. rewrite Hdrop. cbv zeta.
  rewrite (header_end_pos q table_name body Hm).
  rewrite (header_line_end q table_name body).
  destruct (Z.eqb_spec (59 + Z.of_nat (length (q ++ table_name))) (-1));
    [lia|].
  fold (schema_of sql_file).
  unfold upto, from.
  replace (Z.to_nat (Z.of_nat (length (header_block q table_name)) + 1))
    with (length (header_block q table_name ++ [nl]))
    by (rewrite length_app; cbn [length]; lia).
  replace (header_block q table_name ++ nl :: body)
    with ((header_block q table_name ++ [nl]) ++ body)
    by (now rewrite <- app_assoc).
  rewrite firstn_exact, skipn_exact by reflexivity.
  now rewrite <- app_assoc.
Qed.

End DropPlace.

(** ** The section between two headers *)

Section BetweenHeaders.
Import Extract.

(** The rest of the pattern reads the name of the block and the end of its
    header in one way only. *)
Lemma name_tail_own (table_name tail : text) (b : bool) :
  matches true (name_tail table_name)
    (b, table_name ++ nl :: dash_line ++ tail)
  = [(false, tail)].
Proof.
  unfold name_tail.
  rewrite matches_seq_eq, matches_chars_self, flat_map_one, matches_seq_eq.
  change (matches true SpaceStar (?b0, nl :: dash_line ++ tail))
    with [(true, dash_line ++ tail); (b0, (nl :: dash_line) ++ tail)].
  cbn [flat_map]. rewrite app_nil_r, matches_chars_self.
  change (matches true (Chars (nl :: dash_line)) (true, dash_line ++ tail))
    with (@nil mstate).
  reflexivity.
Qed.

(** The header pattern of a plain name matches the header block of this
    name in one way, up to the end of the block. *)
Lemma header_match_own (q table_name tail : text) :
  plain_name table_name = true -> qualifier q ->
  matches true (table_header_pattern table_name)
    (true, header_block q table_name ++ tail)
  = [(false, tail)].
Proof.
  intros Hplain Hq.
  destruct (plain_name_inv table_name Hplain) as [Hsp Hdot].
  rewrite header_block_app, header_pattern_start.
  rewrite matches_seq_eq, schema_prefix_eq, flat_map_app, flat_map_one.
  destruct Hq.
  - cbn [app]. rewrite schema_qualifier_fails by assumption.
    cbn [flat_map app]. apply name_tail_own.
  - change (matches true schema_qualifier
              (false, T "uat_suncbs_acctdb." ++ ?r))
      with [(false, r)].
    rewrite flat_map_one, name_tail_own.
    rewrite app_assoc, name_tail_fails; [reflexivity| |].
    + rewrite length_app. change (length (T "uat_suncbs_acctdb.")) with 18.
      lia.
    + now rewrite forallb_app, Hsp.
  - change (matches true schema_qualifier
              (false, T "uat_suncbs_coredb." ++ ?r))
      with [(false, r)].
    rewrite flat_map_one, name_tail_own.
    rewrite app_assoc, name_tail_fails; [reflexivity| |].
    + rewrite length_app. change (length (T "uat_suncbs_coredb.")) with 18.
      lia.
    + now rewrite forallb_app, Hsp.
Qed.

(** [search] reports the first position with a match. *)
Lemma search_from_first (ic : bool) (r : regex) (s : text) (st : mstate)
    (ms : list mstate) :
  forall pre b pos,
  (forall k, k < length pre ->
     matches ic r (after b (firstn k pre), skipn k pre ++ s) = []) ->
  matches ic r (after b pre, s) = st :: ms ->
  search_from ic r b (pre ++ s) pos
  = Some (pos + length pre,
          pos + length pre + (length s - length (snd st))).
Proof.
  induction pre as [|c pre IH]; intros b pos Hpre Hm.
  - cbn [app length]. rewrite !Nat.add_0_r.
    change (after b []) with b in Hm.
    destruct s as [|d s]; cbn [search_from]; rewrite Hm; now destruct st.
  - cbn [app search_from].
    pose proof (Hpre 0 ltac:(cbn [length]; lia)) as H0.
    cbn [firstn skipn app] in H0. change (after b []) with b in H0.
    rewrite H0.
    rewrite (IH (is_nl c) (S pos)).
    + cbn [length]. f_equal. f_equal; lia.
    + intros k Hk. apply (Hpre (S k)). cbn [length]. lia.
    + exact Hm.
Qed.

Lemma lit_startswith (p : text) :
  forall b s, startswith s p = false -> lit false p (b, s) = None.
Proof.
  induction p as [|c p IH]; intros b s H; [discriminate|].
  destruct s as [|d s]; [reflexivity|].
  cbn [startswith lit ceq] in *.
  destruct (Ascii.eqb c d); [|reflexivity].
  now apply IH.
Qed.

(** The pattern of the next header matches only at a dash line. *)
Lemma next_pattern_needs_dashes (b : bool) (s : text) :
  startswith s dash_line = false ->
  matches false next_table_pattern (b, s) = [].
Proof.
  intros H. unfold next_table_pattern. rewrite matches_seq_eq.
  destruct b; [|reflexivity].
  change (matches false Bol (true, s)) with [(true, s)].
  rewrite flat_map_one, matches_seq_eq, matches_chars_eq.
  now rewrite lit_startswith.
Qed.

(** The pattern of the next header matches at a header block. *)
Lemma next_pattern_at_header (q table_name rest : text) :
  matches false next_table_pattern (true, header_block q table_name ++ rest)
  <> [].
Proof.
  rewrite header_block_app.
  apply in_not_nil
    with (st := (false, ascii_of_nat 32
                          :: q ++ table_name ++ nl :: dash_line ++ rest)).
  unfold next_table_pattern.
  eapply matches_seq; [now left|].
  eapply matches_seq; [rewrite matches_chars_self; now left|].
  eapply matches_seq; [apply star_stay|].
  cbn [fst snd].
  change (nl :: T "-- Table structure for "
             ++ q ++ table_name ++ nl :: dash_line ++ rest)
    with ((nl :: T "-- Table structure for")
            ++ ascii_of_nat 32
               :: q ++ table_name ++ nl :: dash_line ++ rest).
  rewrite matches_chars_self. now left.
Qed.

Lemma after_line (b : bool) (m : text) : after b (m ++ [nl]) = true.
Proof. unfold after. now rewrite fold_left_app. Qed.

(** No dash line starts in a text without dash line that a line feed
    ends. *)
Lemma no_dash_line_before (m R : text) :
  contains m dash_line = false ->
  forall k, k < length (m ++ [nl]) ->
  startswith (skipn k (m ++ [nl]) ++ R) dash_line = false.
Proof.
  intros H k Hk. rewrite length_app in Hk. cbn [length] in Hk.
  rewrite skipn_app.
  replace (k - length m) with 0 by lia. cbn [skipn].
  rewrite <- app_assoc. cbn [app].
  destruct (startswith (skipn k m ++ nl :: R) dash_line) eqn:E;
    [|reflexivity].
  apply dashes_before_nl in E; [|reflexivity].
  now rewrite (contains_skipn m dash_line H k) in E.
Qed.

(** When the header of a plain name is the first place of the dump where
    its pattern matches, and the text up to the next header holds no dash
    line and ends with a line feed, the section is the header block and
    this text, trimmed: nothing before the header, nothing from the next
    header on. *)
Theorem section_ends_at_next_header (pre q table_name m q' next rest : text) :
  plain_name table_name = true ->
  qualifier q ->
  after true pre = true ->
  (forall k, k < length pre ->
     matches true (table_header_pattern table_name)
       (after true (firstn k pre),
        skipn k pre ++ header_block q table_name
          ++ (m ++ [nl]) ++ header_block q' next ++ rest) = []) ->
  contains m dash_line = false ->
  ddl_section
    (pre ++ header_block q table_name
       ++ (m ++ [nl]) ++ header_block q' next ++ rest) table_name
  = Some (strip (header_block q table_name ++ m ++ [nl])).
Proof.
  intros Hplain Hq Hbol Hpre Hm.
  set (tail := (m ++ [nl]) ++ header_block q' next ++ rest) in *.
  assert (Hown : matches true (table_header_pattern table_name)
                   (after true pre, header_block q table_name ++ tail)
                 = [(false, tail)])
    by (rewrite Hbol; now apply header_match_own).
  unfold ddl_section, search.
  rewrite (search_from_first true _ _ _ _ pre true 0 Hpre Hown).
  cbn [snd Nat.add].
  replace (length pre
           + (length (header_block q table_name ++ tail) - length tail))
    with (length (pre ++ header_block q table_name))
    by (rewrite !length_app; lia).
  rewrite app_assoc, skipn_exact by reflexivity.
  destruct (matches false next_table_pattern
              (after true (m ++ [nl]), header_block q' next ++ rest))
    as [|st2 ms2] eqn:E2.
  { rewrite after_line in E2.
    now apply next_pattern_at_header in E2. }
  subst tail.
  rewrite (search_from_first false next_table_pattern
             (header_block q' next ++ rest) st2 ms2 (m ++ [nl]) true 0).
  - f_equal. f_equal. unfold slice.
    rewrite <- app_assoc, skipn_exact by reflexivity.
    cbn [Nat.add].
    replace (length (pre ++ header_block q table_name) + length (m ++ [nl])
             - length pre)
      with (length (header_block q table_name ++ m ++ [nl]))
      by (rewrite !length_app; lia).
    replace (header_block q table_name
             ++ (m ++ [nl]) ++ header_block q' next ++ rest)
      with ((header_block q table_name ++ m ++ [nl])
            ++ header_block q' next ++ rest)
      by (now rewrite <- !app_assoc).
    now rewrite firstn_exact by reflexivity.
  - intros k Hk. apply next_pattern_needs_dashes.
    now apply no_dash_line_before.
  - exact E2.
Qed.

End BetweenHeaders.

Section MoreSamples.
Import Extract.

Lemma drop_added_after_header_witness :
  extract_table_ddl (T "/scripts/core_db.sql")
    (header_block [] (T "orders")
     ++ nl :: T "CREATE TABLE orders (id int);" ++ [nl])
    (T "orders")
  = Some (header_block [] (T "orders")
          ++ nl :: drop_statement (schema_of (T "/scripts/core_db.sql"))
                     (T "orders")
          ++ T "CREATE TABLE orders (id int);").
Proof.
  apply (drop_added_after_header (T "/scripts/core_db.sql")
           (header_block [] (T "orders")
            ++ nl :: T "CREATE TABLE orders (id int);" ++ [nl])
           [] (T "orders") (T "CREATE TABLE orders (id int);")).
  - vm_compute; reflexivity.
  - vm_compute; reflexivity.
  - vm_compute; reflexivity.
Defined.

Lemma section_ends_at_next_header_witness :
  ddl_section
    (customers_section ++ header_block [] (T "orders")
       ++ ((nl :: T "CREATE TABLE orders (id int);" ++ [nl]) ++ [nl])
       ++ header_block (T "uat_suncbs_coredb.") (T "items")
       ++ nl :: T "CREATE TABLE items (id int);" ++ [nl])
    (T "orders")
  = Some (strip (header_block [] (T "orders")
                 ++ (nl :: T "CREATE TABLE orders (id int);" ++ [nl])
                 ++ [nl])).
Proof.
  apply (section_ends_at_next_header customers_section [] (T "orders")
           (nl :: T "CREATE TABLE orders (id int);" ++ [nl])
           (T "uat_suncbs_coredb.") (T "items")
           (nl :: T "CREATE TABLE items (id int);" ++ [nl])).
  - vm_compute; reflexivity.
  - exact q_none.
  - vm_compute; reflexivity.
  - intros k Hk.
    do 131 (destruct k as [|k]; [vm_compute; reflexivity|]).
    vm_compute in Hk. lia.
  - vm_compute; reflexivity.
Defined.

(** The schema of the DROP statement is chosen by a test on the whole
    path: a directory whose name holds acct_db gives the accounting
    schema to a table of core_db.sql. *)
Example schema_from_directory_name :
  extract_table_ddl (T "/opt/acct_db_tools/core_db.sql")
    (header_block [] (T "orders")
     ++ nl :: T "CREATE TABLE orders (id int);" ++ [nl])
    (T "orders")
  = Some (header_block [] (T "orders")
          ++ nl :: drop_statement (T "uat_suncbs_acctdb") (T "orders")
          ++ T "CREATE TABLE orders (id int);").
Proof. vm_compute; reflexivity. Qed.

End MoreSamples.

(** ** The table list *)

Section TableList.
Import Extract.

Lemma lstrip_split (s : text) :
  exists l, s = l ++ lstrip s /\ forallb is_space l = true.
Proof.
  induction s as [|c s (l & Hl & Hsp)]; [now exists []|].
  cbn [lstrip]. destruct (is_space c) eqn:E.
  - exists (c :: l). cbn [app forallb]. rewrite E, Hsp. now rewrite <- Hl.
  - now exists [].
Qed.

Lemma lstrip_head (s : text) (c : ascii) (r : text) :
  lstrip s = c :: r -> is_space c = false.
Proof.
  induction s as [|d s IH]; [discriminate|].
  cbn [lstrip]. destruct (is_space d) eqn:E; [exact IH|].
  now intros [= <- _].
Qed.

Lemma lstrip_fixed (c : ascii) (s : text) :
  is_space c = false -> lstrip (c :: s) = c :: s.
Proof. intros H. cbn [lstrip]. now rewrite H. Qed.

Lemma lstrip_lstrip (s : text) : lstrip (lstrip s) = lstrip s.
Proof.
  destruct (lstrip s) as [|c r] eqn:E; [reflexivity|].
  apply lstrip_fixed. exact (lstrip_head s c r E).
Qed.

Lemma rstrip_split (s : text) :
  exists r, s = rstrip s ++ r /\ forallb is_space r = true.
Proof.
  unfold rstrip. destruct (lstrip_split (rev s)) as (l & Hl & Hsp).
  exists (rev l). split; [|now rewrite forallb_rev].
  rewrite <- rev_app_distr, <- Hl. now rewrite rev_involutive.
Qed.

(** Trimming on the right keeps a first character that is not white
    space. *)
Lemma rstrip_cons (c : ascii) (s : text) :
  is_space c = false -> exists s', rstrip (c :: s) = c :: s'.
Proof.
  intros Hc. unfold rstrip. cbn [rev].
  destruct (lstrip_keeps_last (rev s) c Hc) as [a' ->].
  rewrite rev_app_distr. now exists (rev a').
Qed.

Lemma rstrip_rstrip (s : text) : rstrip (rstrip s) = rstrip s.
Proof. unfold rstrip. now rewrite rev_involutive, lstrip_lstrip. Qed.

(** [strip] is idempotent. *)
Lemma strip_strip (s : text) : strip (strip s) = strip s.
Proof.
  assert (H : forall u, strip u = rstrip (lstrip u)) by reflexivity.
  rewrite (H s).
  destruct (lstrip s) as [|c r] eqn:E; [reflexivity|].
  pose proof (lstrip_head s c r E) as Hc.
  destruct (rstrip_cons c r Hc) as [s' Hs'].
  rewrite H, Hs', (lstrip_fixed c s' Hc), <- Hs'.
  apply rstrip_rstrip.
Qed.

(** What [strip] returns is a stretch of its argument between white
    space. *)
Lemma strip_split (s : text) :
  exists l r, s = l ++ strip s ++ r
              /\ forallb is_space l = true /\ forallb is_space r = true.
Proof.
  destruct (lstrip_split s) as (l & Hl & Hsl).
  destruct (rstrip_split (lstrip s)) as (r & Hr & Hsr).
  exists l, r. unfold strip. now rewrite <- Hr.
Qed.

Lemma strip_in (s : text) (c : ascii) : In c (strip s) -> In c s.
Proof.
  destruct (strip_split s) as (l & r & Hs & _). intros H.
  rewrite Hs. apply in_or_app; right. apply in_or_app; now left.
Qed.

Lemma rstrip_snoc_space (s : text) (c : ascii) :
  is_space c = true -> rstrip (s ++ [c]) = rstrip s.
Proof.
  intros Hc. unfold rstrip. rewrite rev_app_distr.
  cbn [rev app lstrip]. now rewrite Hc.
Qed.

Lemma lstrip_snoc (s : text) (c : ascii) :
  lstrip (s ++ [c]) = lstrip s ++ [c] \/ (lstrip s = [] /\ lstrip (s ++ [c]) = lstrip [c]).
Proof.
  induction s as [|d s IH]; [now right|].
  cbn [app lstrip]. destruct (is_space d); [exact IH|now left].
Qed.

(** White space after the text does not change what [strip] returns. *)
Lemma strip_snoc_space (s : text) (c : ascii) :
  is_space c = true -> strip (s ++ [c]) = strip s.
Proof.
  intros Hc. unfold strip.
  destruct (lstrip_snoc s c) as [->|[E ->]].
  - now apply rstrip_snoc_space.
  - rewrite E. cbn [lstrip]. now rewrite Hc.
Qed.

Lemma is_nl_eq (c : ascii) : is_nl c = true <-> c = nl.
Proof. unfold is_nl. apply Ascii.eqb_eq. Qed.

Lemma is_nl_false (c : ascii) : is_nl c = false <-> c <> nl.
Proof. unfold is_nl. apply Ascii.eqb_neq. Qed.

(** A line of a file holds a line feed at its end or nowhere. *)
Lemma lines_from_shape (s : text) :
  forall cur, ~ In nl cur ->
  Forall (fun l => exists body,
            ~ In nl body /\ (l = body ++ [nl] \/ l = body))
         (lines_from cur s).
Proof.
  induction s as [|c s IH]; intros cur Hcur; cbn [lines_from].
  - destruct cur as [|d cur]; constructor; [|constructor].
    exists (rev (d :: cur)). split; [|now right].
    now rewrite <- in_rev.
  - destruct (is_nl c) eqn:E.
    + apply is_nl_eq in E. subst c. constructor; [|now apply IH].
      exists (rev cur). split; [now rewrite <- in_rev|now left].
    + apply is_nl_false in E. apply IH.
      intros [H|H]; [now apply E|now apply Hcur].
Qed.

(** Every name [read_table_list] returns is not empty, has no white
    space at its ends and holds no line feed. *)
Theorem read_table_list_clean (table_list n : text) :
  In n (read_table_list table_list) -> clean_name n.
Proof.
  unfold read_table_list. intros H.
  apply in_map_iff in H as (l & <- & Hl).
  apply filter_In in Hl as [Hl Hne].
  repeat split.
  - intros E. rewrite E in Hne. discriminate.
  - apply strip_strip.
  - pose proof (lines_from_shape table_list [] (fun H => H)) as Hs.
    rewrite Forall_forall in Hs.
    destruct (Hs l Hl) as (body & Hb & [->| ->]).
    + rewrite strip_snoc_space by reflexivity.
      intros Hin. apply Hb. now apply strip_in.
    + intros Hin. apply Hb. now apply strip_in.
Qed.

Lemma lines_from_line (n : text) :
  ~ In nl n ->
  forall cur rest,
  lines_from cur (n ++ nl :: rest)
  = (rev cur ++ n ++ [nl]) :: lines_from [] rest.
Proof.
  induction n as [|c n IH]; intros Hn cur rest; cbn [app lines_from].
  - change (is_nl nl) with true. cbn [rev]. reflexivity.
  - assert (Hc : is_nl c = false)
      by (apply is_nl_false; intros ->; apply Hn; now left).
    rewrite Hc, IH by (intros H; apply Hn; now right).
    cbn [rev]. now rewrite <- app_assoc.
Qed.

Lemma lines_from_last (n : text) :
  ~ In nl n -> forall cur, rev cur ++ n <> [] ->
  lines_from cur n = [rev cur ++ n].
Proof.
  induction n as [|c n IH]; intros Hn cur Hne; cbn [lines_from].
  - rewrite app_nil_r in *. destruct cur; [now contradiction Hne|reflexivity].
  - assert (Hc : is_nl c = false)
      by (apply is_nl_false; intros ->; apply Hn; now left).
    rewrite Hc, IH.
    + cbn [rev]. now rewrite <- app_assoc.
    + intros H; apply Hn; now right.
    + cbn [rev]. rewrite <- app_assoc. cbn [app].
      intros E. now apply app_eq_nil in E as [_ E].
Qed.

Lemma lines_write_lines (names : list text) :
  Forall clean_name names ->
  lines (write_lines names) = map (fun n => n ++ [nl]) names.
Proof.
  unfold lines. induction 1 as [|n names (_ & _ & Hn) _ IH]; [reflexivity|].
  cbn [write_lines flat_map map]. rewrite <- app_assoc. cbn [app].
  rewrite (lines_from_line n Hn). cbn [rev app]. f_equal. exact IH.
Qed.

Lemma lines_join_nl (names : list text) :
  Forall clean_name names ->
  exists ls, lines (join_nl names) = ls
             /\ Forall2 (fun l n => l = n ++ [nl] \/ l = n) ls names.
Proof.
  unfold lines. induction 1 as [|n names (Hne & _ & Hn) Hall IH].
  - exists []. split; [reflexivity|constructor].
  - cbn [join_nl]. destruct names as [|n' names].
    + exists [n]. split; [|repeat constructor; now right].
      now apply (lines_from_last n Hn []).
    + destruct IH as (ls & Hls & Hf).
      exists ((n ++ [nl]) :: ls). split.
      * rewrite (lines_from_line n Hn). cbn [rev app]. f_equal. exact Hls.
      * constructor; [now left|exact Hf].
Qed.

(** Lines that are clean names, with or without their line feed, are
    read back as these names. *)
Lemma read_lines_back (ls names : list text) :
  Forall clean_name names ->
  Forall2 (fun l n => l = n ++ [nl] \/ l = n) ls names ->
  map strip (filter (fun line => negb (text_eqb (strip line) [])) ls)
  = names.
Proof.
  intros Hall Hf. induction Hf as [|l n ls names Hl _ IH]; [reflexivity|].
  inversion Hall as [|? ? (Hne & Hs & Hn) Hall']; subst.
  assert (E : strip l = n).
  { destruct Hl as [->| ->]; [|exact Hs].
    now rewrite strip_snoc_space by reflexivity. }
  cbn [filter]. rewrite E.
  assert (Hb : text_eqb n [] = false).
  { destruct (text_eqb n []) eqn:Et; [|reflexivity].
    apply text_eqb_eq in Et. contradiction. }
  rewrite Hb. cbn [negb map]. rewrite E. f_equal. now apply IH.
Qed.

(** A list of clean names written one per line is read back as it
    is, whether the last line ends with a line feed or not. *)
Theorem read_table_list_round_trip (names : list text) :
  Forall clean_name names ->
  read_table_list (write_lines names) = names
  /\ read_table_list (join_nl names) = names.
Proof.
  intros Hall. unfold read_table_list. split.
  - rewrite (lines_write_lines names Hall).
    apply read_lines_back; [exact Hall|].
    clear Hall. induction names; constructor; [now left|assumption].
  - destruct (lines_join_nl names Hall) as (ls & -> & Hf).
    now apply read_lines_back.
Qed.

End TableList.

(** ** Letter case of the requested name *)

Section NameCase.
Import Extract.

Lemma lit_ci_eq (p p' : text) :
  ci_equal p p' -> forall st, lit true p st = lit true p' st.
Proof.
  induction 1 as [|c c' p p' Hc _ IH]; intros [b s]; [reflexivity|].
  cbn [lit]. destruct s as [|d s]; [reflexivity|].
  unfold ceq. rewrite Hc. destruct (Ascii.eqb (lower c') (lower d));
    [apply IH|reflexivity].
Qed.

Lemma matches_chars_ci (p p' : text) :
  ci_equal p p' ->
  forall st, matches true (Chars p) st = matches true (Chars p') st.
Proof. intros H st. cbn [matches]. now rewrite (lit_ci_eq p p' H). Qed.

Lemma matches_seq_ext_l (ic : bool) (r1 r1' r2 : regex) :
  (forall st, matches ic r1 st = matches ic r1' st) ->
  forall st, matches ic (Seq r1 r2) st = matches ic (Seq r1' r2) st.
Proof. intros H st. cbn [matches]. now rewrite H. Qed.

Lemma matches_seq_ext_r (ic : bool) (r1 r2 r2' : regex) :
  (forall st, matches ic r2 st = matches ic r2' st) ->
  forall st, matches ic (Seq r1 r2) st = matches ic (Seq r1 r2') st.
Proof.
  intros H st. cbn [matches]. apply flat_map_ext. exact H.
Qed.

Lemma header_pattern_ci (t t' : text) :
  ci_equal t t' ->
  forall st, matches true (table_header_pattern t) st
             = matches true (table_header_pattern t') st.
Proof.
  intros H. unfold table_header_pattern.
  do 5 apply matches_seq_ext_r.
  apply matches_seq_ext_l. now apply matches_chars_ci.
Qed.

Lemma drop_pattern_ci (t t' : text) :
  ci_equal t t' ->
  forall st, matches true (drop_pattern t) st
             = matches true (drop_pattern t') st.
Proof.
  intros H. unfold drop_pattern.
  do 2 apply matches_seq_ext_r. now apply matches_chars_ci.
Qed.

Lemma search_from_ext (ic : bool) (r r' : regex) :
  (forall st, matches ic r st = matches ic r' st) ->
  forall s b pos, search_from ic r b s pos = search_from ic r' b s pos.
Proof.
  intros H; induction s as [|c s IH]; intros b pos; cbn [search_from];
    rewrite H; [reflexivity|].
  now rewrite IH.
Qed.

(** The section found for a table and the DROP test do not depend on the
    letter case in which the table is requested: [re.IGNORECASE] covers
    the name as well as the header text. *)
Theorem section_whatever_name_case (t t' : text) :
  ci_equal t t' ->
  (forall content, ddl_section content t = ddl_section content t')
  /\ (forall ddl, search true (drop_pattern t) ddl
                  = search true (drop_pattern t') ddl).
Proof.
  intros H; split.
  - intros content. unfold ddl_section, search.
    now rewrite (search_from_ext true _ _ (header_pattern_ci t t' H)).
  - intros ddl. unfold search.
    now rewrite (search_from_ext true _ _ (drop_pattern_ci t t' H)).
Qed.

End NameCase.

(** ** The DROP statement is added once *)

Section DropOnce.
Import Extract.

(** The DROP test succeeds on a text that holds the DROP statement the
    extractor writes. *)
Lemma drop_statement_found (sql_file table_name pre post : text) :
  search true (drop_pattern table_name)
    (pre ++ drop_statement (schema_of sql_file) table_name ++ post)
  <> None.
Proof.
  assert (E : exists mid,
             forallb not_nl mid = true
             /\ drop_statement (schema_of sql_file) table_name ++ post
                = T "DROP TABLE" ++ mid ++ table_name
                  ++ dquote :: T ";" ++ [nl; nl] ++ post).
  { unfold schema_of, drop_statement.
    destruct (contains sql_file (T "acct_db")).
    - exists (T " IF EXISTS " ++ dquote :: T "uat_suncbs_acctdb"
                ++ dquote :: T "." ++ [dquote]).
      split; [reflexivity|].
      repeat (rewrite <- app_assoc; cbn [app]). reflexivity.
    - exists (T " IF EXISTS " ++ dquote :: T "uat_suncbs_coredb"
                ++ dquote :: T "." ++ [dquote]).
      split; [reflexivity|].
      repeat (rewrite <- app_assoc; cbn [app]). reflexivity. }
  destruct E as (mid & Hmid & ->).
  apply drop_pattern_found;
    [apply ci_equal_refl|apply ci_equal_refl|exact Hmid].
Qed.

(** What lines 79-87 return has the DROP statement or is the text they
    were given. *)
Lemma add_drop_cases (sql_file table_name ddl : text) :
  add_drop sql_file table_name ddl = ddl
  \/ search true (drop_pattern table_name)
       (add_drop sql_file table_name ddl) <> None.
Proof.
  unfold add_drop.
  destruct (search true (drop_pattern table_name) ddl); [now left|].
  cbv zeta.
  match goal with |- context [if ?t then _ else _] => destruct t end;
    [now left|].
  right. fold (schema_of sql_file). apply drop_statement_found.
Qed.

(** Adding the DROP statement to a text that went through lines 79-87
    changes nothing: the statement is added at most once. *)
Theorem add_drop_idempotent (sql_file table_name ddl : text) :
  add_drop sql_file table_name (add_drop sql_file table_name ddl)
  = add_drop sql_file table_name ddl.
Proof.
  destruct (add_drop_cases sql_file table_name ddl) as [E|H].
  - now rewrite E.
  - unfold add_drop at 1.
    destruct (search true (drop_pattern table_name)
                (add_drop sql_file table_name ddl));
      [reflexivity|contradiction].
Qed.

End DropOnce.

(** ** Every extracted DDL has its DROP statement *)

Section AlwaysDrop.
Import Extract.

Lemma matches_seq_inv (ic : bool) (r1 r2 : regex) (st st' : mstate) :
  In st' (matches ic (Seq r1 r2) st) ->
  exists st1, In st1 (matches ic r1 st) /\ In st' (matches ic r2 st1).
Proof. cbn [matches]. intros H. now apply in_flat_map in H. Qed.

(** What follows the first part of a sequence is matched by its second
    part. *)
Lemma matches_seq_tail (ic : bool) (r1 r2 : regex) (st st' : mstate) :
  In st' (matches ic (Seq r1 r2) st) ->
  exists x st1, snd st = x ++ snd st1 /\ In st' (matches ic r2 st1).
Proof.
  intros H. apply matches_seq_inv in H as (st1 & H1 & H2).
  destruct (matches_suffix ic r1 st st1 H1) as [x Hx].
  now exists x, st1.
Qed.

Lemma lower_space (c : ascii) : ceq true " " c = true -> c = " "%char.
Proof.
  destruct c as [b0 b1 b2 b3 b4 b5 b6 b7].
  destruct b0, b1, b2, b3, b4, b5, b6, b7; vm_compute; congruence.
Qed.

Lemma lower_nl (c : ascii) : ceq true nl c = true -> c = nl.
Proof.
  destruct c as [b0 b1 b2 b3 b4 b5 b6 b7].
  destruct b0, b1, b2, b3, b4, b5, b6, b7; vm_compute; congruence.
Qed.

(** Dashes, spaces and line feeds have one letter case. *)
Lemma caseless_run (p x : text) :
  Forall2 (fun c d => ceq true c d = true) p x ->
  Forall (fun c => c = "-"%char \/ c = " "%char \/ c = nl) p ->
  x = p.
Proof.
  induction 1 as [|c d p x Hcd _ IH]; intros Hp; [reflexivity|].
  inversion Hp as [|? ? Hc Hp']; subst.
  f_equal; [|now apply IH].
  destruct Hc as [->|[->| ->]];
    [now apply lower_dash|now apply lower_space|now apply lower_nl].
Qed.

Lemma dash_line_caseless :
  Forall (fun c => c = "-"%char \/ c = " "%char \/ c = nl) (nl :: dash_line).
Proof.
  apply Forall_forall. intros c Hc.
  assert (H : forallb (fun c => Ascii.eqb c "-" || Ascii.eqb c " "
                                || Ascii.eqb c nl) (nl :: dash_line) = true)
    by reflexivity.
  rewrite forallb_forall in H. specialize (H c Hc).
  apply orb_prop in H as [H|H]; [apply orb_prop in H as [H|H]|];
    apply Ascii.eqb_eq in H; auto.
Qed.

(** What the header pattern matched starts with the dash line and ends
    with a line feed and the dash line. *)
Lemma header_match_shape (table_name : text) (st st' : mstate) :
  In st' (matches true (table_header_pattern table_name) st) ->
  exists y, snd st = dash_line ++ y ++ nl :: dash_line ++ snd st'.
Proof.
  unfold table_header_pattern. intros H.
  apply matches_seq_inv in H as (st0 & H0 & H).
  cbn [matches] in H0. destruct (fst st); [|contradiction].
  destruct H0 as [<-|[]].
  apply matches_seq_inv in H as (st1 & H1 & H).
  rewrite matches_chars_eq in H1. destruct st as [b s].
  destruct (lit true dash_line (b, s)) as [st1'|] eqn:E1; [|contradiction].
  destruct H1 as [<-|[]].
  destruct (lit_inv true dash_line b s st1' E1) as (x1 & Hx1 & Hc1).
  apply caseless_run in Hc1;
    [|exact (Forall_inv_tail dash_line_caseless)].
  subst x1.
  apply matches_seq_tail in H as (y2 & st2 & Hy2 & H).
  apply matches_seq_tail in H as (y3 & st3 & Hy3 & H).
  apply matches_seq_tail in H as (y4 & st4 & Hy4 & H).
  apply matches_seq_tail in H as (y5 & st5 & Hy5 & H).
  apply matches_seq_tail in H as (y6 & st6 & Hy6 & H).
  rewrite matches_chars_eq in H. destruct st6 as [b6 s6].
  destruct (lit true (nl :: dash_line) (b6, s6)) as [st7|] eqn:E7;
    [|contradiction].
  destruct H as [<-|[]].
  destruct (lit_inv true (nl :: dash_line) b6 s6 st7 E7) as (x7 & Hx7 & Hc7).
  apply caseless_run in Hc7; [|exact dash_line_caseless]. subst x7.
  cbn [snd] in *.
  exists (y2 ++ y3 ++ y4 ++ y5 ++ y6).
  rewrite Hx1, Hy2, Hy3, Hy4, Hy5, Hy6, Hx7.
  rewrite <- !app_assoc. reflexivity.
Qed.

Lemma lstrip_app_keep (c : ascii) (v k : text) :
  is_space c = false -> exists w, lstrip (v ++ c :: k) = w ++ c :: k.
Proof.
  intros Hc; induction v as [|d v IH]; cbn [app lstrip].
  - rewrite Hc. now exists [].
  - destruct (is_space d); [exact IH|]. now exists (d :: v).
Qed.

(** Trimming keeps the text between two characters that are not white
    space. *)
Lemma strip_keeps_ends (c0 c : ascii) (a z : text) :
  is_space c0 = false -> is_space c = false ->
  exists z', strip ((c0 :: a) ++ c :: z) = (c0 :: a) ++ c :: z'.
Proof.
  intros H0 Hc. unfold strip. cbn [app]. rewrite (lstrip_fixed c0 _ H0).
  unfold rstrip.
  change (c0 :: a ++ c :: z) with ((c0 :: a) ++ c :: z).
  rewrite rev_app_distr. cbn [rev]. rewrite <- app_assoc. cbn [app].
  destruct (lstrip_app_keep c (rev z) (rev a ++ [c0]) Hc) as [w ->].
  exists (rev w).
  rewrite rev_app_distr. cbn [rev].
  rewrite rev_app_distr, rev_involutive. cbn [rev app].
  now rewrite <- app_assoc.
Qed.

Lemma header_text_ends (y more : text) :
  exists a, (dash_line ++ y ++ nl :: dash_line) ++ more
            = ("-"%char :: a) ++ "-"%char :: more.
Proof.
  exists (T "- ----------------------------" ++ y
            ++ nl :: T "-- ---------------------------").
  change dash_line with ("-"%char :: T "- ----------------------------") at 1.
  change dash_line with (T "-- ---------------------------" ++ ["-"%char]).
  repeat (rewrite <- app_assoc; cbn [app]). reflexivity.
Qed.

(** The trimmed section of a found table starts with the dash line of its
    header and holds the closing dash line. *)
Lemma ddl_section_shape (content table_name ddl : text) :
  ddl_section content table_name = Some ddl ->
  exists y z, ddl = (dash_line ++ y ++ nl :: dash_line) ++ z.
Proof.
  unfold ddl_section, search.
  destruct (search_from true (table_header_pattern table_name) true content 0)
    as [[i j]|] eqn:E; [|discriminate].
  destruct (search_from_sound _ _ _ _ _ _ _ E)
    as (pre & suf & b' & st & ms & -> & -> & Hm & ->).
  assert (Hin : In st (matches true (table_header_pattern table_name)
                         (b', suf))) by (rewrite Hm; now left).
  destruct (header_match_shape _ _ _ Hin) as (y & Hsuf).
  cbn [snd] in Hsuf.
  intros H. injection H as <-.
  match goal with
  | |- context [slice _ _ ?e0] => set (e := e0)
  end.
  set (hd := dash_line ++ y ++ nl :: dash_line) in *.
  assert (Hs : suf = hd ++ snd st).
  { subst hd. rewrite Hsuf. repeat (rewrite <- app_assoc; cbn [app]).
    reflexivity. }
  assert (Hl : length suf = length hd + length (snd st))
    by (rewrite Hs at 1; apply length_app).
  assert (He : 0 + length pre + length hd <= e).
  { subst e.
    match goal with
    | |- context [search_from false next_table_pattern true ?a 0] =>
        destruct (search_from false next_table_pattern true a 0)
          as [[n0 n1]|]
    end; [lia|rewrite length_app; lia]. }
  unfold slice. cbn [Nat.add] in *.
  rewrite skipn_app, skipn_all2, Nat.sub_diag by lia.
  cbn [skipn app]. rewrite Hs.
  rewrite firstn_app, firstn_all2 by lia.
  destruct (header_text_ends y
              (firstn (e - length pre - length hd) (snd st))) as [a Ha].
  fold hd in Ha. rewrite Ha.
  destruct (strip_keeps_ends "-" "-" a
              (firstn (e - length pre - length hd) (snd st))
              eq_refl eq_refl) as [z' ->].
  assert (Hhd : hd = ("-"%char :: a) ++ ["-"%char]).
  { apply (app_inv_tail
             (firstn (e - length pre - length hd) (snd st))).
    rewrite Ha. now rewrite <- app_assoc. }
  exists y, z'. fold hd. rewrite Hhd. now rewrite <- app_assoc.
Qed.

(** [find_at] stops at an occurrence of [sub] at the latest. *)
Lemma find_at_occurs (a sub b : text) :
  forall pos,
  (pos <= find_at (a ++ sub ++ b) sub pos <= pos + Z.of_nat (length a))%Z.
Proof.
  induction a as [|c a IH]; intros pos.
  - cbn [app length]. rewrite find_at_here by apply startswith_app. lia.
  - cbn [app find_at length].
    destruct (startswith (c :: a ++ sub ++ b) sub); [lia|].
    specialize (IH (pos + 1)%Z). lia.
Qed.

(** In a section that starts with a header, the second search for a run
    of dashes finds one. *)
Lemma section_header_end (y z : text) :
  let ddl := (dash_line ++ y ++ nl :: dash_line) ++ z in
  find ddl dashes (find ddl dashes 0 + 1) <> (-1)%Z.
Proof.
  intros ddl.
  assert (Hparts : ddl = T "-- -"
                         ++ (T "---------------------------" ++ y
                             ++ nl :: T "-- ")
                         ++ dashes ++ z).
  { subst ddl. change dash_line with (T "-- -" ++ T "---------------------------") at 1.
    change dash_line with (T "-- " ++ dashes).
    repeat (rewrite <- app_assoc; cbn [app]). reflexivity. }
  assert (Hlen : 4 <= length ddl).
  { rewrite Hparts, length_app. change (length (T "-- -")) with 4. lia. }
  assert (H0 : find ddl dashes 0 = 3%Z).
  { rewrite find_from by lia. subst ddl. vm_compute. reflexivity. }
  rewrite H0. change (3 + 1)%Z with 4%Z.
  rewrite find_from by lia.
  rewrite Hparts.
  change (skipn (Z.to_nat 4) (T "-- -" ++ ?X)) with X.
  match goal with
  | |- find_at (?a ++ dashes ++ z) dashes 4 <> _ =>
      pose proof (find_at_occurs a dashes z 4) as H
  end.
  lia.
Qed.

(** Whatever [extract_table_ddl] returns holds a DROP TABLE line that
    names the table: the one of the dump or the one the function adds. *)
Theorem extracted_ddl_has_drop (sql_file content table_name ddl : text) :
  extract_table_ddl sql_file content table_name = Some ddl ->
  search true (drop_pattern table_name) ddl <> None.
Proof.
  unfold extract_table_ddl.
  destruct (ddl_section content table_name) as [d|] eqn:E; [|discriminate].
  intros H. injection H as <-.
  destruct (ddl_section_shape _ _ _ E) as (y & z & ->).
  unfold add_drop.
  destruct (search true (drop_pattern table_name)
              ((dash_line ++ y ++ nl :: dash_line) ++ z)) as [p|] eqn:Es.
  - rewrite Es. discriminate.
  - cbv zeta.
    pose proof (section_header_end y z) as Hh. cbv zeta in Hh.
    destruct (Z.eqb_spec
                (find ((dash_line ++ y ++ nl :: dash_line) ++ z) dashes
                   (find ((dash_line ++ y ++ nl :: dash_line) ++ z)
                      dashes 0 + 1)) (-1)); [contradiction|].
    fold (schema_of sql_file). apply drop_statement_found.
Qed.

End AlwaysDrop.

(** ** The extracted DDL is a part of the dump *)

Section Verbatim.
Import Extract.

(** [search] reports the leftmost position with a match, and the first
    match there. *)
Lemma search_from_leftmost (ic : bool) (r : regex) (s : text) :
  forall b pos i j,
  search_from ic r b s pos = Some (i, j) ->
  exists pre suf st ms,
    s = pre ++ suf /\ i = pos + length pre
    /\ matches ic r (after b pre, suf) = st :: ms
    /\ j = i + (length suf - length (snd st))
    /\ forall k, k < length pre ->
         matches ic r (after b (firstn k pre), skipn k pre ++ suf) = [].
Proof.
  induction s as [|c s IH]; intros b pos i j H; cbn [search_from] in H.
  - match type of H with
    | context [matches ic r ?st0] =>
        destruct (matches ic r st0) as [|[b1 rest] ms] eqn:E
    end; [discriminate|].
    injection H as <- <-.
    exists [], [], (b1, rest), ms.
    cbn [app length snd]. rewrite Nat.add_0_r.
    repeat split; auto. intros k Hk. lia.
  - match type of H with
    | context [matches ic r ?st0] =>
        destruct (matches ic r st0) as [|[b1 rest] ms] eqn:E
    end.
    + destruct (IH _ _ _ _ H)
        as (pre & suf & st & ms & -> & -> & Hm & -> & Hleft).
      exists (c :: pre), suf, st, ms.
      cbn [app length]. rewrite Nat.add_succ_r.
      repeat split; auto.
      intros [|k] Hk; [exact E|].
      cbn [firstn skipn]. apply Hleft. lia.
    + injection H as <- <-.
      exists [], (c :: s), (b1, rest), ms.
      cbn [app length snd]. rewrite Nat.add_0_r.
      repeat split; auto. intros k Hk. lia.
Qed.



Lemma slice_from (pre suf : text) (e : nat) :
  slice (pre ++ suf) (length pre) e = firstn (e - length pre) suf.
Proof.
  unfold slice. now rewrite skipn_app, skipn_all, Nat.sub_diag.
Qed.



End Verbatim.

(** ** The schema of the DROP statement in a batch *)

Section SchemaOfBatch.
Import Extract.

Lemma startswith_before (sep : ascii) (p : text) :
  ~ In sep p ->
  forall m R, startswith (m ++ sep :: R) p = true -> startswith m p = true.
Proof.
  induction p as [|c p IH]; intros Hp m R H; [reflexivity|].
  destruct m as [|d m]; cbn [app startswith] in *.
  - apply andb_prop in H as [H _]. apply Ascii.eqb_eq in H. subst c.
    exfalso. apply Hp. now left.
  - apply andb_prop in H as [-> H]. cbn [andb].
    apply (IH (fun Hin => Hp (or_intror Hin)) m R H).
Qed.

(** A text that does not hold the separator occurs in neither of two
    texts joined by the separator if it occurs in none of them. *)
Lemma contains_joined (sep : ascii) (p a f : text) :
  ~ In sep p -> contains a p = false -> contains f p = false ->
  contains (a ++ sep :: f) p = false.
Proof.
  intros Hp Ha Hf. induction a as [|d a IH].
  - cbn [app contains]. rewrite Hf, orb_false_r.
    destruct p as [|c p]; [discriminate Ha|].
    cbn [startswith].
    destruct (Ascii.eqb c sep) eqn:E; [|reflexivity].
    apply Ascii.eqb_eq in E. subst c. exfalso. apply Hp. now left.
  - cbn [contains] in Ha. apply orb_false_elim in Ha as [Hs Ha].
    cbn [app contains]. rewrite (IH Ha), orb_false_r.
    destruct (startswith (d :: a ++ sep :: f) p) eqn:E; [|reflexivity].
    apply (startswith_before sep p Hp (d :: a) f) in E. congruence.
Qed.

Lemma contains_app_r (a f p : text) :
  contains f p = true -> contains (a ++ f) p = true.
Proof.
  intros H; induction a as [|d a IH]; [exact H|].
  cbn [app contains]. rewrite IH. apply orb_true_r.
Qed.

(** When the path of the script directory does not hold acct_db, the
    DROP statement a batch adds names the accounting schema for the
    tables of acct_db.sql and the core schema for the tables of
    core_db.sql. *)
Theorem drop_schema_follows_group (script_dir table_name : text) :
  contains script_dir (T "acct_db") = false ->
  schema_of (path_join script_dir (determine_source_file table_name))
  = if is_acct table_name then T "uat_suncbs_acctdb"
    else T "uat_suncbs_coredb".
Proof.
  intros H. unfold schema_of, path_join, determine_source_file.
  fold (is_acct table_name). destruct (is_acct table_name).
  - rewrite contains_app_r; [reflexivity|vm_compute; reflexivity].
  - change (T "/" ++ T "core_db.sql") with ("/"%char :: T "core_db.sql").
    rewrite (contains_joined "/" (T "acct_db")); [reflexivity| |exact H|reflexivity].
    intros Hin. vm_compute in Hin. intuition discriminate.
Qed.

End SchemaOfBatch.

(** ** The files of the generator *)

Section GeneratorFiles.
Import Generate.

Lemma three_lines_each (g : text) (l : list text) :
  length (flat_map (table_statements g) l) = 3 * length l.
Proof.
  induction l as [|t l IH]; [reflexivity|].
  cbn [flat_map]. rewrite length_app, IH.
  unfold table_statements. cbn [length]. lia.
Qed.

(** Every table of the list is counted in one group and adds three lines
    to the statements of this group. *)
Theorem generator_counts (tables : list text) :
  let st := collect tables in
  acct_db_count st + core_db_count st = length tables
  /\ length (acct_statements st) = 3 * acct_db_count st
  /\ length (core_statements st) = 3 * core_db_count st.
Proof.
  cbv zeta. destruct (collect_groups tables) as (Ha & Hc & Hna & Hnc).
  rewrite Ha, Hc, Hna, Hnc.
  split; [|split].
  - pose proof (filter_length is_acct tables) as H.
    change (fun x : text => negb (is_acct x)) with is_core in H. exact H.
  - apply three_lines_each.
  - apply three_lines_each.
Qed.

Lemma join_nl_cons (x y : text) (rest : list text) :
  join_nl (x :: y :: rest) = x ++ nl :: join_nl (y :: rest).
Proof. reflexivity. Qed.

(** The statements of a group, joined by line feeds, are the blocks of
    its tables with an empty line between two blocks. *)
Lemma join_statements (g : text) (ts : list text) :
  join_nl (flat_map (table_statements g) ts) = join_nl (map (block g) ts).
Proof.
  induction ts as [|t ts IH]; [reflexivity|].
  change (flat_map (table_statements g) (t :: ts))
    with (delete_stmt t g :: insert_stmt t g t :: []
            :: flat_map (table_statements g) ts).
  rewrite !join_nl_cons.
  destruct ts as [|t' ts].
  - cbn [flat_map map join_nl]. reflexivity.
  - change (flat_map (table_statements g) (t' :: ts))
      with (delete_stmt t' g :: insert_stmt t' g t' :: []
              :: flat_map (table_statements g) ts) in *.
    rewrite join_nl_cons, IH.
    change (join_nl (map (block g) (t :: t' :: ts)))
      with (block g t ++ nl :: join_nl (map (block g) (t' :: ts))).
    set (J := join_nl (map (block g) (t' :: ts))).
    unfold block.
    repeat (rewrite <- app_assoc; cbn [app]). reflexivity.
Qed.

(** For every table list, acct.sql is its header, with the number of
    accounting tables, followed by the blocks of the accounting tables in
    the order of the list, an empty line between two blocks; core.sql is
    the same for the other tables. *)
Theorem generator_file_layout (tables : list text) :
  acct_sql (collect tables)
  = acct_header (length (filter is_acct tables))
    ++ join_nl (map (block (T "acct")) (filter is_acct tables))
  /\ core_sql (collect tables)
     = core_header (length (filter is_core tables))
       ++ join_nl (map (block (T "core")) (filter is_core tables)).
Proof.
  destruct (collect_groups tables) as (Ha & Hc & Hna & Hnc).
  unfold acct_sql, core_sql, acct_header, core_header.
  rewrite Ha, Hc, Hna, Hnc, !join_statements.
  split; repeat (rewrite <- app_assoc; cbn [app]); reflexivity.
Qed.

End GeneratorFiles.

(** ** Batches of the extractor, composed and counted *)

Section BatchMore.
Import Extract.

Variable fs : files.
Variable script_dir : text.

Lemma members_app (clock : nat -> date_time) (l1 l2 : list text) :
  forall k,
  members fs script_dir clock k (l1 ++ l2)
  = members fs script_dir clock k l1
    ++ members fs script_dir clock (k + length l1) l2.
Proof.
  induction l1 as [|t l1 IH]; intros k.
  - cbn [app members length]. now rewrite Nat.add_0_r.
  - cbn [app members length]. rewrite IH, Nat.add_succ_r.
    now destruct (outcome fs script_dir t).
Qed.

Lemma members_later (clock : nat -> date_time) (n : nat) (l : list text) :
  forall k,
  members fs script_dir (later clock n) k l
  = members fs script_dir clock (n + k) l.
Proof.
  induction l as [|t l IH]; intros k; [reflexivity|].
  cbn [members]. rewrite IH, Nat.add_succ_r. reflexivity.
Qed.

(** The run on two lists put end to end is the run on the first followed
    by the run on the second, started when the first one ends: the members
    and the missing tables follow each other, the counts add up. *)
Theorem batch_of_two_lists (clock : nat -> date_time) (l1 l2 : list text) :
  let r1 := create_zip_with_ddls fs script_dir clock l1 in
  let r2 := create_zip_with_ddls fs script_dir (later clock (length l1)) l2 in
  create_zip_with_ddls fs script_dir clock (l1 ++ l2)
  = Batch (zipf r1 ++ zipf r2)
          (extracted_count r1 + extracted_count r2)
          (missing_tables r1 ++ missing_tables r2).
Proof.
  cbv zeta. rewrite !create_zip_batch.
  cbn [zipf extracted_count missing_tables].
  rewrite members_app, members_later, !filter_app, length_app.
  now rewrite Nat.add_0_r.
Qed.

Lemma count_occ_sql_names (l : list text) (t : text) :
  count_occ text_dec (map (fun n => n ++ T ".sql") l) (t ++ T ".sql")
  = count_occ text_dec l t.
Proof.
  induction l as [|x l IH]; [reflexivity|].
  cbn [map count_occ].
  destruct (text_dec (x ++ T ".sql") (t ++ T ".sql")) as [E|E];
    destruct (text_dec x t) as [E'|E']; try (now rewrite IH).
  - apply app_inv_tail in E. contradiction.
  - subst x. contradiction.
Qed.

Lemma filter_count_occ_false (f : text -> bool) (l : list text) (t : text) :
  f t = false -> count_occ text_dec (filter f l) t = 0.
Proof.
  intros Ht; induction l as [|x l IH]; [reflexivity|].
  cbn [filter]. destruct (f x) eqn:Ex; [|exact IH].
  cbn [count_occ]. destruct (text_dec x t) as [->|_]; [congruence|exact IH].
Qed.

(** Each request of a table is answered once: by a member named after
    the table, if the table is extracted, and by an entry of the missing
    list otherwise.  A table requested several times gets as many members
    of the same name, or as many entries. *)
Theorem requests_answered_once (clock : nat -> date_time)
    (tables : list text) (t : text) :
  let r := create_zip_with_ddls fs script_dir clock tables in
  let in_archive :=
    count_occ text_dec (map filename (zipf r)) (t ++ T ".sql") in
  let in_missing := count_occ text_dec (missing_tables r) t in
  if extracted fs script_dir t
  then in_archive = count_occ text_dec tables t /\ in_missing = 0
  else in_archive = 0 /\ in_missing = count_occ text_dec tables t.
Proof.
  cbv zeta. rewrite create_zip_batch.
  cbn [zipf missing_tables].
  rewrite members_names, count_occ_sql_names.
  destruct (extracted fs script_dir t) eqn:E.
  - split; [now apply filter_count_occ|].
    apply filter_count_occ_false. unfold not_extracted. now rewrite E.
  - split; [now apply filter_count_occ_false|].
    apply filter_count_occ. unfold not_extracted. now rewrite E.
Qed.

End BatchMore.

(** ** Blank lines and indentation in the table list *)

Section TableListLines.
Import Extract.

Lemma lstrip_app_space (l s : text) :
  forallb is_space l = true -> lstrip (l ++ s) = lstrip s.
Proof.
  induction l as [|c l IH]; intros H; [reflexivity|].
  cbn [forallb] in H. apply andb_prop in H as [Hc Hl].
  cbn [app lstrip]. rewrite Hc. now apply IH.
Qed.

Lemma rstrip_app_space (s r : text) :
  forallb is_space r = true -> rstrip (s ++ r) = rstrip s.
Proof.
  intros H. unfold rstrip. rewrite rev_app_distr.
  now rewrite lstrip_app_space by (now rewrite forallb_rev).
Qed.

(** A clean name is left as it is by both trimmings. *)
Lemma clean_name_fixed (n : text) :
  clean_name n -> lstrip n = n /\ rstrip n = n.
Proof.
  intros (_ & Hs & _).
  destruct (lstrip_split n) as (l & Hl & _).
  destruct (rstrip_split (lstrip n)) as (r & Hr & _).
  change (rstrip (lstrip n)) with (strip n) in Hr. rewrite Hs in Hr.
  assert (Hlen : length l = 0 /\ length r = 0).
  { pose proof (f_equal (@length ascii) Hl) as H1.
    pose proof (f_equal (@length ascii) Hr) as H2.
    rewrite length_app in H1, H2. lia. }
  destruct Hlen as [H1 H2].
  apply length_zero_iff_nil in H1, H2. subst l r.
  rewrite app_nil_r in Hr. split; [exact Hr|].
  unfold strip in Hs. now rewrite Hr in Hs.
Qed.

(** A clean name between white space is trimmed to the name. *)
Lemma strip_padded (l n r : text) :
  clean_name n ->
  forallb is_space l = true -> forallb is_space r = true ->
  strip (l ++ n ++ r) = n.
Proof.
  intros Hn Hl Hr. destruct (clean_name_fixed n Hn) as [Hln Hrn].
  unfold strip. rewrite lstrip_app_space by exact Hl.
  destruct n as [|c n]; [now destruct Hn|].
  assert (Hc : is_space c = false) by exact (lstrip_head _ _ _ Hln).
  cbn [app]. rewrite (lstrip_fixed c _ Hc).
  change (c :: n ++ r) with ((c :: n) ++ r).
  now rewrite rstrip_app_space.
Qed.

Lemma not_in_app (c : ascii) (a b : text) :
  ~ In c a -> ~ In c b -> ~ In c (a ++ b).
Proof. intros Ha Hb H. apply in_app_or in H as [H|H]; auto. Qed.

(** A line that holds a clean name between white space gives this name,
    a line of white space gives nothing, and the rest of the file is read
    in the same way. *)
Theorem read_table_list_by_line (pad1 n pad2 rest : text) :
  forallb is_space pad1 = true -> ~ In nl pad1 ->
  forallb is_space pad2 = true -> ~ In nl pad2 ->
  (clean_name n ->
   read_table_list (pad1 ++ n ++ pad2 ++ nl :: rest)
   = n :: read_table_list rest)
  /\ read_table_list (pad1 ++ nl :: rest) = read_table_list rest.
Proof.
  intros H1 N1 H2 N2. unfold read_table_list, lines. split.
  - intros Hn.
    replace (pad1 ++ n ++ pad2 ++ nl :: rest)
      with ((pad1 ++ n ++ pad2) ++ nl :: rest)
      by (now rewrite <- !app_assoc).
    rewrite lines_from_line.
    + cbn [rev app filter].
      replace ((pad1 ++ n ++ pad2) ++ [nl])
        with (pad1 ++ n ++ (pad2 ++ [nl]))
        by (now rewrite <- !app_assoc).
      assert (Hp : forallb is_space (pad2 ++ [nl]) = true)
        by (rewrite forallb_app, H2; reflexivity).
      rewrite (strip_padded pad1 n (pad2 ++ [nl]) Hn H1 Hp).
      assert (Hb : text_eqb n [] = false).
      { destruct (text_eqb n []) eqn:Et; [|reflexivity].
        apply text_eqb_eq in Et. now destruct Hn. }
      rewrite Hb. cbn [negb map].
      now rewrite (strip_padded pad1 n (pad2 ++ [nl]) Hn H1 Hp).
    + destruct Hn as (_ & _ & Hnl).
      apply not_in_app; [exact N1|]. now apply not_in_app.
  - rewrite lines_from_line by exact N1.
    cbn [rev app filter].
    assert (Hp : forallb is_space (pad1 ++ [nl]) = true)
      by (rewrite forallb_app, H1; reflexivity).
    now rewrite (strip_blank _ Hp).
Qed.

End TableListLines.

(** ** What the patterns match *)

Section PatternLanguage.
Import Extract.

Lemma star_inv (p : ascii -> bool) (s : text) :
  forall b st, In st (star p b s) ->
  exists x, s = x ++ snd st /\ forallb p x = true.
Proof.
  induction s as [|c s IH]; intros b st H.
  - destruct H as [<-|[]]. now exists [].
  - cbn [star] in H. destruct (p c) eqn:E.
    + apply in_app_or in H as [H|[<-|[]]].
      * destruct (IH _ _ H) as (x & -> & Hx). exists (c :: x).
        cbn [forallb]. now rewrite E, Hx.
      * now exists [].
    + destruct H as [<-|[]]. now exists [].
Qed.

Lemma ceq_ci (p x : text) :
  Forall2 (fun c d => ceq true c d = true) p x <-> ci_equal p x.
Proof.
  unfold ci_equal.
  split; induction 1; constructor; auto; unfold ceq in *;
    now apply Ascii.eqb_eq.
Qed.

(** What a literal run matched, under [re.IGNORECASE]. *)
Lemma chars_inv (p : text) (st st' : mstate) :
  In st' (matches true (Chars p) st) ->
  exists x, snd st = x ++ snd st' /\ ci_equal p x.
Proof.
  rewrite matches_chars_eq. destruct st as [b s].
  destruct (lit true p (b, s)) as [st1|] eqn:E; [|contradiction].
  intros [<-|[]].
  destruct (lit_inv true p b s st1 E) as (x & Hx & Hc).
  exists x. split; [exact Hx|now apply ceq_ci].
Qed.

Lemma chars_ci (p x rest : text) (b : bool) :
  ci_equal p x -> exists b', In (b', rest) (matches true (Chars p) (b, x ++ rest)).
Proof.
  intros H. destruct (lit_ci p x H b rest) as [b' Hb].
  exists b'. rewrite matches_chars_eq, Hb. now left.
Qed.

Lemma ci_equal_app (p1 p2 x1 x2 : text) :
  ci_equal p1 x1 -> ci_equal p2 x2 -> ci_equal (p1 ++ p2) (x1 ++ x2).
Proof. apply Forall2_app. Qed.

(** What the qualifier of the pattern matched. *)
Lemma schema_prefix_inv (st st' : mstate) :
  In st' (matches true schema_prefix st) ->
  exists q, snd st = q ++ snd st' /\ qualifier_text q.
Proof.
  rewrite schema_prefix_eq. intros H.
  apply in_app_or in H as [H|[<-|[]]].
  - unfold schema_qualifier in H.
    apply matches_seq_inv in H as (st1 & H1 & H).
    apply matches_seq_inv in H as (st2 & H2 & H3).
    apply chars_inv in H1 as (x1 & E1 & C1).
    apply chars_inv in H3 as (x3 & E3 & C3).
    cbn [matches] in H2. rewrite <- !matches_chars_eq in H2.
    apply in_app_or in H2 as [H2|H2];
      apply chars_inv in H2 as (x2 & E2 & C2);
      exists (x1 ++ x2 ++ x3);
      (split; [rewrite E1, E2, E3; now rewrite <- !app_assoc|]).
    + right; left.
      change (T "uat_suncbs_acctdb.")
        with (T "uat_suncbs_" ++ T "acct" ++ T "db.").
      now repeat apply ci_equal_app.
    + right; right.
      change (T "uat_suncbs_coredb.")
        with (T "uat_suncbs_" ++ T "core" ++ T "db.").
      now repeat apply ci_equal_app.
  - exists []. split; [reflexivity|now left].
Qed.

Lemma schema_qualifier_ci (mid q rest : text) (b : bool) :
  mid = T "acct" \/ mid = T "core" ->
  ci_equal (T "uat_suncbs_" ++ mid ++ T "db.") q ->
  exists b', In (b', rest) (matches true schema_qualifier (b, q ++ rest)).
Proof.
  intros Hmid H.
  apply Forall2_app_inv_l in H as (q1 & q23 & H1 & H & ->).
  apply Forall2_app_inv_l in H as (q2 & q3 & H2 & H3 & ->).
  rewrite <- !app_assoc.
  destruct (chars_ci _ q1 (q2 ++ q3 ++ rest) b H1) as [b1 I1].
  destruct (chars_ci _ q2 (q3 ++ rest) b1 H2) as [b2 I2].
  destruct (chars_ci _ q3 rest b2 H3) as [b3 I3].
  exists b3. unfold schema_qualifier.
  eapply matches_seq; [exact I1|].
  eapply matches_seq; [|exact I3].
  cbn [matches]. rewrite <- !matches_chars_eq.
  apply in_or_app. destruct Hmid as [-> | ->]; [now left|now right].
Qed.

Lemma schema_prefix_ci (q rest : text) (b : bool) :
  qualifier_text q ->
  exists b', In (b', rest) (matches true schema_prefix (b, q ++ rest)).
Proof.
  intros [->|[H|H]].
  - exists b. rewrite schema_prefix_eq. apply in_or_app; right. now left.
  - destruct (schema_qualifier_ci (T "acct") q rest b (or_introl eq_refl) H)
      as [b' Hb].
    exists b'. rewrite schema_prefix_eq. apply in_or_app; now left.
  - destruct (schema_qualifier_ci (T "core") q rest b (or_intror eq_refl) H)
      as [b' Hb].
    exists b'. rewrite schema_prefix_eq. apply in_or_app; now left.
Qed.

(** What the header pattern of a table matches is a header of the
    table. *)
Lemma header_pattern_sound (table_name s rest : text) (b0 b : bool) :
  In (b, rest) (matches true (table_header_pattern table_name) (b0, s)) ->
  header_text table_name s rest.
Proof.
  intros H. unfold table_header_pattern in H.
  apply matches_seq_inv in H as (st0 & H0 & H).
  cbn [matches fst] in H0. destruct b0; [|contradiction].
  destruct H0 as [<-|[]].
  apply matches_seq_inv in H as (st1 & H1 & H).
  apply chars_inv in H1 as (x1 & E1 & C1).
  apply ceq_ci in C1.
  apply caseless_run in C1;
    [|exact (Forall_inv_tail dash_line_caseless)]. subst x1.
  apply matches_seq_inv in H as (st2 & H2 & H).
  apply star_inv in H2 as (ws1 & E2 & W1).
  apply matches_seq_inv in H as (st3 & H3 & H).
  apply chars_inv in H3 as (x3 & E3 & C3).
  inversion C3 as [|c d p3 h Hc Ch]; subst.
  assert (d = nl)
    by (apply lower_nl; unfold ceq; now apply Ascii.eqb_eq).
  subst d.
  apply matches_seq_inv in H as (st4 & H4 & H).
  apply schema_prefix_inv in H4 as (q & E4 & Q).
  apply matches_seq_inv in H as (st5 & H5 & H).
  apply chars_inv in H5 as (n & E5 & C5).
  apply matches_seq_inv in H as (st6 & H6 & H).
  apply star_inv in H6 as (ws2 & E6 & W2).
  apply chars_inv in H as (x7 & E7 & C7).
  apply ceq_ci in C7. apply caseless_run in C7;
    [|exact dash_line_caseless]. subst x7.
  cbn [snd] in *.
  exists ws1, h, q, n, ws2.
  repeat split; auto.
  rewrite E1, E2, E3, E4, E5, E6, E7.
  repeat (rewrite <- app_assoc; cbn [app]). reflexivity.
Qed.

(** The header pattern of a table matches at the start of a line exactly
    the headers of the table: the dash line, the comment line with the
    name, with or without schema qualifier, and the dash line, where
    white space may end the first two lines and empty lines may follow
    them, and the comment and the name may be in any letter case. *)
Theorem header_pattern_language (table_name s rest : text) :
  (exists b, In (b, rest)
               (matches true (table_header_pattern table_name) (true, s)))
  <-> header_text table_name s rest.
Proof.
  split.
  - intros [b H]. now apply header_pattern_sound in H.
  - intros (ws1 & h & q & n & ws2 & -> & W1 & Ch & Q & Cn & W2).
    destruct (chars_ci dash_line dash_line
                (ws1 ++ nl :: h ++ q ++ n ++ ws2 ++ nl :: dash_line ++ rest)
                true (ci_equal_refl _)) as [b1 I1].
    destruct (star_run is_space ws1
                (nl :: h ++ q ++ n ++ ws2 ++ nl :: dash_line ++ rest)
                W1 b1) as [b2 I2].
    assert (Ch' : ci_equal (nl :: T "-- Table structure for ") (nl :: h))
      by (constructor; [reflexivity|exact Ch]).
    destruct (chars_ci _ (nl :: h)
                (q ++ n ++ ws2 ++ nl :: dash_line ++ rest) b2 Ch')
      as [b3 I3].
    destruct (schema_prefix_ci q (n ++ ws2 ++ nl :: dash_line ++ rest)
                b3 Q) as [b4 I4].
    destruct (chars_ci table_name n (ws2 ++ nl :: dash_line ++ rest) b4 Cn)
      as [b5 I5].
    destruct (star_run is_space ws2 (nl :: dash_line ++ rest) W2 b5)
      as [b6 I6].
    destruct (chars_ci (nl :: dash_line) (nl :: dash_line) rest b6
                (ci_equal_refl _)) as [b7 I7].
    exists b7. unfold table_header_pattern.
    eapply matches_seq; [now left|].
    eapply matches_seq; [exact I1|].
    eapply matches_seq; [exact I2|].
    eapply matches_seq; [exact I3|].
    eapply matches_seq; [exact I4|].
    eapply matches_seq; [exact I5|].
    eapply matches_seq; [exact I6|].
    exact I7.
Qed.

(** The DROP test succeeds exactly on the texts with a line where DROP
    TABLE is followed, on the same line, by the name of the table, both
    in any letter case; the name need not be a whole word. *)
Theorem drop_test_meaning (table_name ddl : text) :
  search true (drop_pattern table_name) ddl <> None
  <-> drop_line table_name ddl.
Proof.
  split.
  - intros H.
    destruct (search true (drop_pattern table_name) ddl) as [[i j]|] eqn:E;
      [clear H|contradiction].
    unfold search in E.
    destruct (search_from_sound _ _ _ _ _ _ _ E)
      as (pre & suf & b' & st & ms & -> & _ & Hm & _).
    assert (Hin : In st (matches true (drop_pattern table_name) (b', suf)))
      by (rewrite Hm; now left).
    unfold drop_pattern in Hin.
    apply matches_seq_inv in Hin as (st1 & H1 & Hin).
    apply chars_inv in H1 as (x & E1 & C1).
    apply matches_seq_inv in Hin as (st2 & H2 & Hin).
    apply star_inv in H2 as (mid & E2 & M).
    apply chars_inv in Hin as (n & E3 & C3).
    cbn [snd] in *.
    exists pre, x, mid, n, (snd st).
    repeat split; auto.
    now rewrite E1, E2, E3.
  - intros (pre & x & mid & n & post & -> & Cx & M & Cn).
    now apply drop_pattern_found.
Qed.

End PatternLanguage.

(** ** The further properties on sample inputs *)

Section FurtherSamples.
Import Extract.

Lemma clean_kfab_bal : clean_name (T "kfab_bal").
Proof.
  split; [discriminate|split; [reflexivity|]].
  intros H. vm_compute in H. intuition discriminate.
Qed.

Lemma clean_cust_info : clean_name (T "cust_info").
Proof.
  split; [discriminate|split; [reflexivity|]].
  intros H. vm_compute in H. intuition discriminate.
Qed.

Lemma read_table_list_clean_witness : clean_name (T "cust_info").
Proof.
  apply (read_table_list_clean
           (T "kfab_bal" ++ nl :: tab_sp ++ T "cust_info " ++ [nl])).
  vm_compute. right; left; reflexivity.
Defined.

Lemma read_table_list_round_trip_witness :
  read_table_list (write_lines [T "kfab_bal"; T "cust_info"])
  = [T "kfab_bal"; T "cust_info"]
  /\ read_table_list (join_nl [T "kfab_bal"; T "cust_info"])
     = [T "kfab_bal"; T "cust_info"].
Proof.
  apply (read_table_list_round_trip [T "kfab_bal"; T "cust_info"]).
  constructor; [apply clean_kfab_bal|].
  constructor; [apply clean_cust_info|constructor].
Defined.

Lemma read_table_list_by_line_witness :
  read_table_list
    (tab_sp ++ T "cust_info" ++ T "  " ++ nl :: T "kfab_bal" ++ [nl])
  = T "cust_info" :: read_table_list (T "kfab_bal" ++ [nl]).
Proof.
  apply (read_table_list_by_line tab_sp (T "cust_info") (T "  ")
           (T "kfab_bal" ++ [nl])).
  - reflexivity.
  - intros H. vm_compute in H. intuition discriminate.
  - reflexivity.
  - intros H. vm_compute in H. intuition discriminate.
  - apply clean_cust_info.
Defined.

Lemma section_whatever_name_case_witness :
  ddl_section orders_dump (T "orders") = ddl_section orders_dump (T "ORDERS").
Proof.
  apply (section_whatever_name_case (T "orders") (T "ORDERS")).
  repeat constructor.
Defined.

Lemma extracted_ddl_has_drop_witness :
  extract_table_ddl (T "/scripts/core_db.sql")
    (header_block [] (T "orders") ++ [nl]) (T "orders")
  = Some (drop_statement (T "uat_suncbs_coredb") (T "orders")
          ++ header_block [] (T "orders"))
  /\ search true (drop_pattern (T "orders"))
       (drop_statement (T "uat_suncbs_coredb") (T "orders")
        ++ header_block [] (T "orders"))
     <> None.
Proof.
  assert (E : extract_table_ddl (T "/scripts/core_db.sql")
                (header_block [] (T "orders") ++ [nl]) (T "orders")
              = Some (drop_statement (T "uat_suncbs_coredb") (T "orders")
                      ++ header_block [] (T "orders")))
    by (vm_compute; reflexivity).
  split; [exact E|].
  exact (extracted_ddl_has_drop _ _ _ _ E).
Defined.


Lemma drop_schema_follows_group_witness :
  schema_of (path_join (T "/scripts") (determine_source_file (T "kfab_bal")))
  = T "uat_suncbs_acctdb".
Proof.
  apply (drop_schema_follows_group (T "/scripts") (T "kfab_bal")).
  reflexivity.
Defined.

End FurtherSamples.

(** ** No further header inside a section *)

Section NoNextHeader.
Import Extract.

Lemma lit_mono (ic : bool) (p ext : text) :
  forall b s st, lit ic p (b, s) = Some st ->
  lit ic p (b, s ++ ext) = Some (fst st, snd st ++ ext).
Proof.
  induction p as [|c p IH]; intros b s st H.
  - injection H as <-. reflexivity.
  - destruct s as [|d s]; [discriminate|].
    cbn [lit app] in *. destruct (ceq ic c d); [|discriminate].
    now apply IH.
Qed.

Lemma star_mono (p : ascii -> bool) (ext s : text) :
  forall b st, In st (star p b s) ->
  In (fst st, snd st ++ ext) (star p b (s ++ ext)).
Proof.
  induction s as [|c s IH]; intros b st H.
  - destruct H as [<-|[]]. apply star_stay.
  - cbn [star app] in *. destruct (p c).
    + apply in_app_or in H as [H|[<-|[]]]; apply in_or_app.
      * left. now apply IH.
      * right. now left.
    + destruct H as [<-|[]]. now left.
Qed.

(** A match stays a match when text is added after the text. *)
Lemma matches_mono (ic : bool) (r : regex) (ext : text) :
  forall st st', In st' (matches ic r st) ->
  In (fst st', snd st' ++ ext) (matches ic r (fst st, snd st ++ ext)).
Proof.
  induction r as [|l| | |r IH|r1 IH1 r2 IH2|r1 IH1 r2 IH2]; intros st st' H;
    cbn [matches] in *.
  - destruct st as [[|] s]; cbn [fst snd] in *; [|contradiction].
    destruct H as [<-|[]]. now left.
  - destruct st as [b s].
    destruct (lit ic l (b, s)) as [st1|] eqn:E; [|contradiction].
    destruct H as [<-|[]]. cbn [fst snd].
    rewrite (lit_mono ic l ext b s st1 E). now left.
  - now apply star_mono.
  - now apply star_mono.
  - apply in_app_or in H as [H|[<-|[]]]; apply in_or_app.
    + left. now apply IH.
    + right. now left.
  - apply in_app_or in H as [H|H]; apply in_or_app;
      [left; now apply IH1|right; now apply IH2].
  - apply in_flat_map in H as (st1 & H1 & H2).
    apply in_flat_map. exists (fst st1, snd st1 ++ ext).
    split; [now apply IH1|].
    exact (IH2 st1 st' H2).
Qed.

Lemma matches_none_shorter (ic : bool) (r : regex) (b : bool) (s ext : text) :
  matches ic r (b, s ++ ext) = [] -> matches ic r (b, s) = [].
Proof.
  intros H. destruct (matches ic r (b, s)) as [|st ms] eqn:E; [reflexivity|].
  assert (Hin : In st (matches ic r (b, s))) by (rewrite E; now left).
  apply (matches_mono ic r ext) in Hin. cbn [fst snd] in Hin.
  rewrite H in Hin. contradiction.
Qed.

(** When [search] finds nothing, no position of the text has a match. *)
Lemma search_from_none (ic : bool) (r : regex) (s : text) :
  forall b pos, search_from ic r b s pos = None ->
  forall k, k <= length s ->
  matches ic r (after b (firstn k s), skipn k s) = [].
Proof.
  induction s as [|c s IH]; intros b pos H k Hk; cbn [search_from] in H.
  - destruct k; [|cbn [length] in Hk; lia].
    cbn [firstn skipn]. change (after b []) with b.
    destruct (matches ic r (b, [])) as [|[b1 rest] ms];
      [reflexivity|discriminate].
  - destruct (matches ic r (b, c :: s)) as [|[b1 rest] ms] eqn:E;
      [|discriminate].
    destruct k as [|k]; [exact E|].
    cbn [firstn skipn]. apply (IH _ _ H). cbn [length] in Hk. lia.
Qed.

Lemma after_cons (b : bool) (c : ascii) (p : text) :
  after b (c :: p) = after (is_nl c) p.
Proof. reflexivity. Qed.

Lemma lit_exact (p : text) :
  forall b s st, lit false p (b, s) = Some st -> s = p ++ snd st.
Proof.
  induction p as [|c p IH]; intros b s st H.
  - now injection H as <-.
  - destruct s as [|d s]; [discriminate|].
    cbn [lit ceq] in H. destruct (Ascii.eqb c d) eqn:E; [|discriminate].
    apply Ascii.eqb_eq in E. subst d. cbn [app]. f_equal. now apply (IH _ _ _ H).
Qed.

(** What a literal run matched, without [re.IGNORECASE]. *)
Lemma exact_chars_inv (p : text) (st st' : mstate) :
  In st' (matches false (Chars p) st) -> snd st = p ++ snd st'.
Proof.
  rewrite matches_chars_eq. destruct st as [b s].
  destruct (lit false p (b, s)) as [st1|] eqn:E; [|contradiction].
  intros [<-|[]]. exact (lit_exact p b s st1 E).
Qed.

(** Trimming a header and what follows it keeps the header and trims what
    follows on the right. *)
Lemma strip_after_header (y zr : text) :
  exists z' r,
    strip ((dash_line ++ y ++ nl :: dash_line) ++ zr)
    = (dash_line ++ y ++ nl :: dash_line) ++ z'
    /\ zr = z' ++ r.
Proof.
  set (hd := dash_line ++ y ++ nl :: dash_line).
  destruct (header_text_ends y zr) as [a Ha]. fold hd in Ha.
  assert (Hhd : hd = ("-"%char :: a) ++ ["-"%char]).
  { apply (app_inv_tail zr). rewrite Ha. now rewrite <- app_assoc. }
  destruct (strip_keeps_ends "-" "-" a zr eq_refl eq_refl) as [z' Hz].
  destruct (rstrip_split (lstrip (hd ++ zr))) as (r & Hr & _).
  change (rstrip (lstrip (hd ++ zr))) with (strip (hd ++ zr)) in Hr.
  rewrite Ha in Hr at 1. rewrite Ha, Hz in Hr.
  cbn [app lstrip] in Hr. change (is_space "-") with false in Hr.
  cbn iota in Hr.
  exists z', r. split.
  - rewrite Ha, Hz, Hhd. now rewrite <- app_assoc.
  - injection Hr as Hr. rewrite <- app_assoc in Hr. cbn [app] in Hr.
    apply app_inv_head in Hr. now injection Hr.
Qed.

Lemma next_pattern_not_at_end (b : bool) :
  matches false next_table_pattern (b, []) = [].
Proof. now destruct b. Qed.

(** After its header, a section holds no place where the pattern of the
    next header matches: the section stops before the first such place
    of the dump. *)
Theorem section_holds_no_next_header (content table_name ddl : text) :
  ddl_section content table_name = Some ddl ->
  exists x z,
    ddl = x ++ z
    /\ header_text table_name x []
    /\ forall k, k <= length z ->
         matches false next_table_pattern
           (after true (firstn k z), skipn k z) = [].
Proof.
  unfold ddl_section, search.
  destruct (search_from true (table_header_pattern table_name) true content 0)
    as [[i j]|] eqn:E; [|discriminate].
  destruct (search_from_leftmost _ _ _ _ _ _ _ E)
    as (pre & suf & [bs tail] & ms & -> & -> & Hm & -> & _).
  assert (Hin : In (bs, tail)
                   (matches true (table_header_pattern table_name)
                      (after true pre, suf))) by (rewrite Hm; now left).
  apply header_pattern_sound in Hin
    as (ws1 & h & q & n & ws2 & Hsuf & W1 & Ch & Q & Cn & W2).
  set (y := ws1 ++ nl :: h ++ q ++ n ++ ws2) in *.
  set (x := dash_line ++ y ++ nl :: dash_line).
  assert (Hx : suf = x ++ tail).
  { subst x y. rewrite Hsuf.
    repeat (rewrite <- app_assoc; cbn [app]). reflexivity. }
  assert (Hhead : header_text table_name x []).
  { exists ws1, h, q, n, ws2. repeat split; auto.
    subst x y. repeat (rewrite <- app_assoc; cbn [app]). reflexivity. }
  cbn [snd Nat.add]. rewrite Hx.
  replace (length pre + (length (x ++ tail) - length tail))
    with (length (pre ++ x)) by (rewrite !length_app; lia).
  rewrite app_assoc, skipn_exact by reflexivity.
  rewrite <- app_assoc, slice_from.
  assert (Hraw : exists zr ext,
            tail = zr ++ ext
            /\ (forall k, k <= length zr ->
                  matches false next_table_pattern
                    (after true (firstn k zr), skipn k zr) = [])
            /\ match search_from false next_table_pattern true tail 0 with
               | Some (next_start, _) => length (pre ++ x) + next_start
               | None => length (pre ++ x ++ tail)
               end - length pre = length (x ++ zr)).
  { destruct (search_from false next_table_pattern true tail 0)
      as [[n0 m0]|] eqn:E2.
    - destruct (search_from_leftmost _ _ _ _ _ _ _ E2)
        as (p2 & s2 & st2 & ms2 & -> & -> & _ & _ & Hleft).
      exists p2, s2. split; [reflexivity|]. split.
      + intros k Hk. destruct (Nat.eq_dec k (length p2)) as [->|Hne].
        * rewrite skipn_all. apply next_pattern_not_at_end.
        * apply (matches_none_shorter _ _ _ _ s2). apply Hleft. lia.
      + rewrite !length_app. cbn [Nat.add]. lia.
    - exists tail, []. split; [now rewrite app_nil_r|]. split.
      + intros k Hk. now apply (search_from_none _ _ _ _ _ E2).
      + rewrite !length_app. lia. }
  destruct Hraw as (zr & ext & Htail & Hno & ->).
  rewrite Htail, app_assoc, firstn_exact by reflexivity.
  intros H.
  assert (Hd : strip (x ++ zr) = ddl) by congruence.
  clear H. rewrite <- Hd.
  destruct (strip_after_header y zr) as (z' & r & Hs & Hz).
  fold x in Hs. rewrite Hs.
  exists x, z'. split; [reflexivity|]. split; [exact Hhead|].
  intros k Hk.
  apply (matches_none_shorter _ _ _ _ r).
  specialize (Hno k). rewrite Hz in Hno.
  rewrite firstn_app, skipn_app in Hno.
  replace (k - length z') with 0 in Hno by lia.
  cbn [firstn skipn] in Hno. rewrite app_nil_r in Hno.
  apply Hno. rewrite length_app. lia.
Qed.

(** The search for the end of a section matches at the start of a line
    exactly the texts made of the dash line, white space up to a line
    feed, and '-- Table structure for' in this letter case. *)
Theorem next_pattern_language (s rest : text) :
  (exists b, In (b, rest) (matches false next_table_pattern (true, s)))
  <-> next_header_text s rest.
Proof.
  split.
  - intros [b H]. unfold next_table_pattern in H.
    apply matches_seq_inv in H as (st0 & H0 & H).
    destruct H0 as [<-|[]].
    apply matches_seq_inv in H as (st1 & H1 & H).
    apply exact_chars_inv in H1 as E1.
    apply matches_seq_inv in H as (st2 & H2 & H).
    apply star_inv in H2 as (ws & E2 & W).
    apply exact_chars_inv in H as E3.
    cbn [snd] in *. exists ws. split; [|exact W].
    rewrite E1, E2, E3.
    repeat (rewrite <- app_assoc; cbn [app]). reflexivity.
  - intros (ws & -> & W).
    destruct (star_run is_space ws
                (nl :: T "-- Table structure for" ++ rest) W
                (after true dash_line)) as [b2 I2].
    exists (after b2 (nl :: T "-- Table structure for")).
    unfold next_table_pattern.
    eapply matches_seq; [now left|].
    eapply matches_seq; [rewrite matches_chars_self; now left|].
    eapply matches_seq; [exact I2|].
    change (nl :: T "-- Table structure for" ++ rest)
      with ((nl :: T "-- Table structure for") ++ rest).
    rewrite matches_chars_self. now left.
Qed.

End NoNextHeader.

Section NoNextHeaderSample.
Import Extract.

Lemma section_holds_no_next_header_witness :
  exists x z,
    header_block [] (T "orders") ++ nl :: T "CREATE TABLE orders (id int);"
    = x ++ z
    /\ header_text (T "orders") x []
    /\ forall k, k <= length z ->
         matches false next_table_pattern
           (after true (firstn k z), skipn k z) = [].
Proof.
  apply (section_holds_no_next_header orders_dump (T "orders")).
  vm_compute. reflexivity.
Defined.

End NoNextHeaderSample.

(** ** A shorter name and the header of a longer name *)

Section QualifiedNames.
Import Extract.

(** Two texts cut at their first line feed are cut at the same place. *)
Lemma first_nl_unique (x : text) :
  forall y a b, ~ In nl x -> ~ In nl y ->
  x ++ nl :: a = y ++ nl :: b -> x = y /\ a = b.
Proof.
  induction x as [|c x IH]; intros y a b Hx Hy E.
  - destruct y as [|d y]; cbn [app] in E.
    + injection E as E. auto.
    + injection E as E _. exfalso. apply Hy. left. now symmetry.
  - destruct y as [|d y]; cbn [app] in E.
    + injection E as E _. exfalso. apply Hx. now left.
    + injection E as <- E.
      destruct (IH y a b) as [-> ->]; auto.
      * intros H. apply Hx. now right.
      * intros H. apply Hy. now right.
Qed.

(** White space up to its first line feed. *)
Lemma space_to_first_nl (ws : text) :
  forallb is_space ws = true ->
  forall b, exists w1 b',
    ws ++ nl :: b = w1 ++ nl :: b'
    /\ ~ In nl w1 /\ forallb is_space w1 = true.
Proof.
  induction ws as [|c ws IH]; intros H b.
  - exists [], b. repeat split; auto.
  - cbn [forallb] in H. apply andb_prop in H as [Hc Hws].
    destruct (is_nl c) eqn:E.
    + apply is_nl_eq in E. subst c. exists [], (ws ++ nl :: b).
      repeat split; auto.
    + apply is_nl_false in E.
      destruct (IH Hws b) as (w1 & b' & Hw & Hn & Hs).
      exists (c :: w1), b'. cbn [app forallb]. rewrite Hw, Hc, Hs.
      repeat split; auto. intros [Hin|Hin]; auto.
Qed.

Lemma ci_no_nl (p x : text) :
  ci_equal p x -> ~ In nl p -> ~ In nl x.
Proof.
  induction 1 as [|c d p x Hcd _ IH]; intros Hp; [auto|].
  intros [Hd|Hd].
  - subst d. apply Hp. left. apply lower_nl.
    unfold ceq. apply Ascii.eqb_eq. now symmetry.
  - apply IH; [|exact Hd]. intros Hin. apply Hp. now right.
Qed.

Lemma qualifier_text_no_nl (q : text) : qualifier_text q -> ~ In nl q.
Proof.
  intros [->|[H|H]]; [auto| |];
    apply (ci_no_nl _ _ H); intros Hin; vm_compute in Hin;
    intuition discriminate.
Qed.

Lemma qualifier_is_text (q : text) : qualifier q -> qualifier_text q.
Proof.
  intros []; [now left|right; left|right; right]; apply ci_equal_refl.
Qed.

(** A clean name ends with a character that is not white space. *)
Lemma clean_name_last (n : text) :
  clean_name n -> exists l c, n = l ++ [c] /\ is_space c = false.
Proof.
  intros Hn. destruct (clean_name_fixed n Hn) as [_ Hr].
  destruct Hn as (Hne & _ & _).
  destruct n as [|c0 n] using rev_ind; [contradiction|].
  exists n, c0. split; [reflexivity|].
  destruct (is_space c0) eqn:E; [|reflexivity].
  rewrite rstrip_snoc_space in Hr by exact E.
  destruct (rstrip_split n) as (r & Hs & _).
  apply (f_equal (@length ascii)) in Hr, Hs.
  rewrite !length_app in *. cbn [length] in *. lia.
Qed.

Lemma no_space_tail (m w l : text) (c : ascii) :
  is_space c = false -> forallb is_space w = true ->
  l ++ [c] = m ++ w -> w = [].
Proof.
  intros Hc Hw E. destruct w as [|d w] using rev_ind; [reflexivity|].
  rewrite app_assoc in E. apply app_inj_tail in E as [_ <-].
  rewrite forallb_app in Hw. cbn [forallb] in Hw.
  rewrite Hc in Hw. rewrite andb_false_r in Hw. discriminate.
Qed.

Lemma app_same_length (a b c d : text) :
  length a = length c -> a ++ b = c ++ d -> a = c /\ b = d.
Proof.
  revert c; induction a as [|x a IH]; intros [|y c] Hl E;
    try discriminate; [auto|].
  injection E as <- E. injection Hl as Hl.
  destruct (IH c Hl E) as [-> ->]. auto.
Qed.

(** What the rest of the pattern matched: the name in any letter case,
    white space, a line feed and the dash line. *)
Lemma name_tail_inv (s : text) (st st' : mstate) :
  In st' (matches true (name_tail s) st) ->
  exists n ws,
    snd st = n ++ ws ++ nl :: dash_line ++ snd st'
    /\ ci_equal s n /\ forallb is_space ws = true.
Proof.
  unfold name_tail. intros H.
  apply matches_seq_inv in H as (st1 & H1 & H).
  apply chars_inv in H1 as (n & E1 & C1).
  apply matches_seq_inv in H as (st2 & H2 & H).
  apply star_inv in H2 as (ws & E2 & W).
  apply chars_inv in H as (x & E3 & C3).
  apply ceq_ci in C3. apply caseless_run in C3;
    [|exact dash_line_caseless]. subst x.
  exists n, ws. repeat split; auto.
  rewrite E1, E2, E3. reflexivity.
Qed.

Lemma name_tail_ci (s n tail : text) (b : bool) :
  ci_equal s n ->
  matches true (name_tail s) (b, n ++ nl :: dash_line ++ tail) <> [].
Proof.
  intros H.
  destruct (chars_ci s n (nl :: dash_line ++ tail) b H) as [b1 I1].
  apply in_not_nil with (st := (after b1 (nl :: dash_line), tail)).
  unfold name_tail.
  eapply matches_seq; [exact I1|].
  eapply matches_seq; [apply star_stay|].
  cbn [fst snd].
  change (nl :: dash_line ++ tail) with ((nl :: dash_line) ++ tail).
  rewrite matches_chars_self. now left.
Qed.

(** What precedes the end of the header line, when the pattern of a name
    matches after the comment: a qualifier of the pattern, or nothing,
    and the name in any letter case. *)
Lemma header_line_read (s line tail : text) (st' : mstate) (b : bool) :
  ~ In nl s -> ~ In nl line ->
  (line = [] \/ exists l c, line = l ++ [c] /\ is_space c = false) ->
  In st' (matches true (Seq schema_prefix (name_tail s))
            (b, line ++ nl :: dash_line ++ tail)) ->
  exists q' n, line = q' ++ n /\ qualifier_text q' /\ ci_equal s n.
Proof.
  intros Hs Hline Hlast H.
  apply matches_seq_inv in H as (st1 & H1 & H).
  apply schema_prefix_inv in H1 as (q' & E1 & Q).
  apply name_tail_inv in H as (n & ws & E2 & Cn & W).
  cbn [snd] in E1. rewrite E2 in E1.
  destruct (space_to_first_nl ws W (dash_line ++ snd st'))
    as (w1 & b' & Hw & Hn1 & Hs1).
  rewrite Hw in E1.
  replace (q' ++ n ++ w1 ++ nl :: b') with ((q' ++ n ++ w1) ++ nl :: b') in E1
    by (now rewrite <- !app_assoc).
  apply first_nl_unique in E1 as [E _]; [|exact Hline|].
  - assert (w1 = []).
    { destruct Hlast as [->|(l & c & -> & Hc)].
      - symmetry in E. apply app_eq_nil in E as [_ E].
        now apply app_eq_nil in E as [_ E].
      - rewrite app_assoc in E. exact (no_space_tail _ _ _ _ Hc Hs1 E). }
    subst w1. rewrite app_nil_r in E. now exists q', n.
  - apply not_in_app; [now apply qualifier_text_no_nl|].
    apply not_in_app; [now apply (ci_no_nl s)|exact Hn1].
Qed.

(** C4, as amended: when a name is a proper part of a longer name of the
    table list, the header pattern of the shorter name matches the header
    block of the longer name in one case only: the block is written
    without schema qualifier and the longer name is itself one of the two
    schema qualifiers followed by the shorter name, in any letter case.
    The pattern of the longer name matches its block.  The names are taken
    literally, whatever characters they hold. *)
Theorem shorter_name_cross_match_only_qualified
    (short long pre post q tail : text) :
  long = pre ++ short ++ post ->
  short <> long ->
  clean_name long ->
  qualifier q ->
  (matches true (table_header_pattern short)
     (true, header_block q long ++ tail) <> []
   <-> q = [] /\ qualified_by short long)
  /\ matches true (table_header_pattern long)
       (true, header_block q long ++ tail) <> [].
Proof.
  intros Hpart Hne Hclean Hq.
  pose proof (proper_part_shorter short long pre post Hpart Hne) as Hlen.
  destruct (clean_name_last long Hclean) as (l0 & c0 & Hl0 & Hc0).
  assert (Hnl : ~ In nl long) by (now destruct Hclean as (_ & _ & H)).
  assert (Hsnl : ~ In nl short).
  { intros Hin. apply Hnl. rewrite Hpart.
    apply in_or_app; right. apply in_or_app; now left. }
  rewrite header_block_app, !header_pattern_start.
  split; [split|].
  - intros H.
    destruct (matches true (Seq schema_prefix (name_tail short))
                (false, q ++ long ++ nl :: dash_line ++ tail))
      as [|st' ms] eqn:E; [contradiction|].
    assert (Hin : In st' (matches true (Seq schema_prefix (name_tail short))
                            (false, (q ++ long) ++ nl :: dash_line ++ tail))).
    { rewrite <- app_assoc, E. now left. }
    apply header_line_read in Hin as (q' & n & Eq & Q & Cn); [|exact Hsnl| |].
    + pose proof (ci_equal_length _ _ Cn) as Hn.
      destruct Hq as [| |].
      * cbn [app] in Eq. split; [reflexivity|].
        destruct Q as [->|Q].
        -- cbn [app] in Eq. subst n. lia.
        -- now exists q', n.
      * exfalso. destruct Q as [->|[Q|Q]].
        -- cbn [app] in Eq. subst n. rewrite length_app in Hn. lia.
        -- apply app_same_length in Eq as [_ <-];
             [lia|now rewrite <- (ci_equal_length _ _ Q)].
        -- apply app_same_length in Eq as [_ <-];
             [lia|now rewrite <- (ci_equal_length _ _ Q)].
      * exfalso. destruct Q as [->|[Q|Q]].
        -- cbn [app] in Eq. subst n. rewrite length_app in Hn. lia.
        -- apply app_same_length in Eq as [_ <-];
             [lia|now rewrite <- (ci_equal_length _ _ Q)].
        -- apply app_same_length in Eq as [_ <-];
             [lia|now rewrite <- (ci_equal_length _ _ Q)].
    + apply not_in_app; [|exact Hnl].
      now apply qualifier_text_no_nl, qualifier_is_text.
    + right. exists (q ++ l0), c0. split; [|exact Hc0].
      now rewrite Hl0, app_assoc.
  - intros [-> (q' & n & -> & Q & Cn)]. cbn [app].
    destruct (schema_prefix_ci q' (n ++ nl :: dash_line ++ tail) false
                (or_intror Q)) as [b1 I1].
    pose proof (name_tail_ci short n tail b1 Cn) as H2.
    destruct (matches true (name_tail short)
                (b1, n ++ nl :: dash_line ++ tail)) as [|st2 ms2] eqn:E2;
      [contradiction|].
    apply in_not_nil with (st := st2).
    rewrite <- app_assoc.
    eapply matches_seq; [exact I1|]. rewrite E2. now left.
  - apply in_not_nil with (st := (after true dash_line, tail)).
    rewrite matches_seq_eq. apply in_flat_map.
    exists (false, long ++ nl :: dash_line ++ tail). split.
    + now apply schema_prefix_reads.
    + apply name_tail_self.
Qed.

Lemma shorter_name_cross_match_only_qualified_witness :
  (matches true (table_header_pattern (T "cust"))
     (true, header_block (T "uat_suncbs_coredb.") (T "cust_info")
            ++ nl :: T "CREATE TABLE cust_info (id int);") <> []
   <-> T "uat_suncbs_coredb." = [] /\ qualified_by (T "cust") (T "cust_info"))
  /\ matches true (table_header_pattern (T "cust_info"))
       (true, header_block (T "uat_suncbs_coredb.") (T "cust_info")
              ++ nl :: T "CREATE TABLE cust_info (id int);") <> [].
Proof.
  apply (shorter_name_cross_match_only_qualified (T "cust") (T "cust_info")
           [] (T "_info") (T "uat_suncbs_coredb.")
           (nl :: T "CREATE TABLE cust_info (id int);")).
  - reflexivity.
  - intros E. apply (f_equal (@length ascii)) in E. vm_compute in E.
    discriminate E.
  - apply clean_cust_info.
  - exact q_core.
Defined.

(** C4 as stated fails for the names orders and uat_suncbs_coredb.orders:
    the first is a proper part of the second, and its header pattern
    matches the header block of the second, reading the start of the
    longer name as a schema qualifier. *)
Lemma qualified_longer_name_cross_match :
  let short := T "orders" in
  let long := T "uat_suncbs_coredb.orders" in
  long = T "uat_suncbs_coredb." ++ short ++ []
  /\ short <> long
  /\ clean_name long
  /\ matches true (table_header_pattern short)
       (true, header_block [] long ++ [nl]) = [(false, [nl])]
  /\ extract_table_ddl (T "/scripts/core_db.sql")
       (header_block [] long ++ nl :: T "CREATE TABLE t (id int);" ++ [nl])
       short
     = Some (header_block [] long
             ++ nl :: drop_statement (T "uat_suncbs_coredb") short
             ++ T "CREATE TABLE t (id int);").
Proof.
  cbv zeta. split; [reflexivity|]. split.
  { intros E. apply (f_equal (@length ascii)) in E. vm_compute in E.
    discriminate E. }
  split.
  { split; [discriminate|split; [reflexivity|]].
    intros H. vm_compute in H. intuition discriminate. }
  split; vm_compute; reflexivity.
Qed.

End QualifiedNames.
